(** * The AI request orchestration of the English tutor (services layer)

    A shallow embedding of the Gemini service module: the credential
    resolver [getApiKey], the retry / fallback wrapper [callAIWithRetry],
    the response cleaner [cleanJsonString] and the task callers
    ([generateSpeech], [analyzeWriting], [interactWithExaminer],
    [gradeSpeakingSession], [analyzePronunciation], [analyzeSpeaking]).

    JavaScript strings are sequences of UTF-16 code units; asynchronous
    functions are run to completion one after the other (the module never
    starts two requests at once), so an [async] function is a state
    transformer over the [World] that either returns or throws. *)

From Stdlib Require Import String Ascii NArith ZArith Lia.
From stdpp Require Import base option list countable gmap.

Set Default Proof Using "Type".
Local Open Scope N_scope.

(** ** JavaScript strings *)

Module JsString.

Abbreviation code_unit := N (only parsing).
Abbreviation jsstring := (list N) (only parsing).

(** An ASCII literal as a JavaScript string. *)
Fixpoint lit (s : string) : jsstring :=
  match s with
  | EmptyString => []
  | String a s' => N_of_ascii a :: lit s'
  end.

(** The characters a Rocq literal cannot hold conveniently. *)
Definition dquote : code_unit := 34.
Definition newline : code_unit := 10.
Definition backtick : code_unit := 96.

(** A template: an ASCII literal in which [~] stands for the double quote. *)
Definition tpl (s : string) : jsstring :=
  (fun c => if N.eqb c 126 then dquote else c) <$> lit s.

Definition eqb (a b : jsstring) : bool := bool_decide (a = b).

(** [s.startsWith(p)], returning what follows the prefix. *)
Fixpoint strip_prefix (p s : jsstring) : option jsstring :=
  match p, s with
  | [], _ => Some s
  | c :: p', d :: s' => if N.eqb c d then strip_prefix p' s' else None
  | _ :: _, [] => None
  end.

Definition starts_with (p s : jsstring) : bool :=
  match strip_prefix p s with Some _ => true | None => false end.

(** [s.includes(p)]. *)
Fixpoint includes (p s : jsstring) : bool :=
  starts_with p s ||
  match s with
  | [] => false
  | _ :: s' => includes p s'
  end.

(** [p] occurs somewhere in [s]. *)
Definition occurs (p s : jsstring) : Prop :=
  exists a b, s = a ++ p ++ b.

(** WhiteSpace and LineTerminator code points of ECMAScript, the set
    [String.prototype.trim] removes. *)
Definition is_white_space (c : code_unit) : bool :=
  (9 <=? c) && (c <=? 13)
  || N.eqb c 32 || N.eqb c 160 || N.eqb c 5760
  || (8192 <=? c) && (c <=? 8202)
  || N.eqb c 8232 || N.eqb c 8233 || N.eqb c 8239 || N.eqb c 8287
  || N.eqb c 12288 || N.eqb c 65279.

Fixpoint trimStart (s : jsstring) : jsstring :=
  match s with
  | c :: s' => if is_white_space c then trimStart s' else s
  | [] => []
  end.

Definition trimEnd (s : jsstring) : jsstring :=
  reverse (trimStart (reverse s)).

Definition trim (s : jsstring) : jsstring := trimEnd (trimStart s).

End JsString.
Import JsString.

(** ** Regular expressions, as far as the module uses them *)

Module Regex.

Inductive regex :=
| Chr (c : code_unit)
| Seq (r1 r2 : regex)
| Alt (r1 r2 : regex)
| Opt (r : regex).

(** Backtracking matcher anchored at the start of [s]: alternatives are
    tried left to right and [?] is greedy; [k] receives what follows the
    match. *)
Fixpoint rmatch {A} (r : regex) (s : jsstring)
    (k : jsstring -> option A) : option A :=
  match r with
  | Chr c =>
      match s with
      | d :: s' => if N.eqb c d then k s' else None
      | [] => None
      end
  | Seq r1 r2 => rmatch r1 s (fun s' => rmatch r2 s' k)
  | Alt r1 r2 =>
      match rmatch r1 s k with
      | Some x => Some x
      | None => rmatch r2 s k
      end
  | Opt r1 =>
      match rmatch r1 s k with
      | Some x => Some x
      | None => k s
      end
  end.

(** [s.replace(/r/g, empty)]: scan from the left; a non-empty match is
    dropped and the scan resumes after it, otherwise the current code
    unit is kept.  Every step consumes at least one code unit, so
    [length s] steps are enough. *)
Fixpoint remove_from (r : regex) (fuel : nat) (s : jsstring) : jsstring :=
  match fuel with
  | O => s
  | S fuel' =>
      match s with
      | [] => []
      | c :: s' =>
          match rmatch r s Some with
          | Some rest =>
              if (length rest <? length s)%nat
              then remove_from r fuel' rest
              else c :: remove_from r fuel' s'
          | None => c :: remove_from r fuel' s'
          end
      end
  end.

Definition remove_all (r : regex) (s : jsstring) : jsstring :=
  remove_from r (length s) s.

End Regex.
Import Regex.

(** ** 1. Clean JSON String *)

(** The pattern [```json\n?|```]. *)
Definition fence_regex : regex :=
  Alt (Seq (Chr 96) (Seq (Chr 96) (Seq (Chr 96)
        (Seq (Chr 106) (Seq (Chr 115) (Seq (Chr 111) (Seq (Chr 110)
          (Opt (Chr 10)))))))))
      (Seq (Chr 96) (Seq (Chr 96) (Chr 96))).

Definition cleanJsonString (str : jsstring) : jsstring :=
  trim (remove_all fence_regex str).

(** ** JSON values and [JSON.parse] *)

Module Json.

(** A JSON number is kept as the decimal its literal denotes,
    [(-1)^neg * mant * 10^exp10]. *)
Record number := Number { neg : bool; mant : N; exp10 : Z }.

Inductive json :=
| JNull
| JBool (b : bool)
| JNumber (n : number)
| JString (s : jsstring)
| JArray (items : list json)
| JObject (fields : list (jsstring * json)).

(** A JavaScript value as the module meets them: [None] is [undefined]. *)
Abbreviation jsvalue := (option json) (only parsing).
Abbreviation undefined := (@None json) (only parsing).

(** The literal rounds to the Number zero: a double is [+0] or [-0]
    exactly when the decimal is at most [2^-1075] in absolute value. *)
Definition number_is_zero (n : number) : bool :=
  match exp10 n with
  | Zneg p => (mant n * 2 ^ 1075 <=? 10 ^ Npos p)
  | _ => N.eqb (mant n) 0
  end.

(** ToBoolean. *)
Definition truthy (v : jsvalue) : bool :=
  match v with
  | None => false
  | Some JNull => false
  | Some (JBool b) => b
  | Some (JNumber n) => negb (number_is_zero n)
  | Some (JString s) => match s with [] => false | _ => true end
  | Some (JArray _) | Some (JObject _) => true
  end.

(** [obj[k] = v] on a freshly parsed object: a repeated key keeps its
    place and takes the new value. *)
Fixpoint obj_set (k : jsstring) (v : json) (fs : list (jsstring * json))
    : list (jsstring * json) :=
  match fs with
  | [] => [(k, v)]
  | (k', v') :: fs' =>
      if eqb k k' then (k, v) :: fs' else (k', v') :: obj_set k v fs'
  end.

Fixpoint obj_get (k : jsstring) (fs : list (jsstring * json)) : jsvalue :=
  match fs with
  | [] => None
  | (k', v') :: fs' => if eqb k k' then Some v' else obj_get k fs'
  end.

(** The member [name] of a value that is not [null]: parsed objects
    have their own members only, and the other values have none of the
    names the module asks for. *)
Definition member (v : json) (name : jsstring) : jsvalue :=
  match v with
  | JObject fields => obj_get name fields
  | _ => None
  end.

(** *** The JSON grammar *)

Definition is_json_ws (c : code_unit) : bool :=
  N.eqb c 9 || N.eqb c 10 || N.eqb c 13 || N.eqb c 32.

Fixpoint skip_ws (s : jsstring) : jsstring :=
  match s with
  | c :: s' => if is_json_ws c then skip_ws s' else s
  | [] => []
  end.

Definition digit_val (c : code_unit) : option N :=
  if (48 <=? c) && (c <=? 57) then Some (c - 48) else None.

Definition hex_val (c : code_unit) : option N :=
  if (48 <=? c) && (c <=? 57) then Some (c - 48)
  else if (65 <=? c) && (c <=? 70) then Some (c - 55)
  else if (97 <=? c) && (c <=? 102) then Some (c - 87)
  else None.

(** Zero or more digits: the value read after [acc], how many digits
    were read, and the rest. *)
Fixpoint digits (s : jsstring) (acc : N) (count : nat)
    : N * nat * jsstring :=
  match s with
  | c :: s' =>
      match digit_val c with
      | Some d => digits s' (acc * 10 + d) (S count)
      | None => (acc, count, s)
      end
  | [] => (acc, count, [])
  end.

(** One or more digits. *)
Definition digits1 (s : jsstring) (acc : N) : option (N * nat * jsstring) :=
  match digits s acc 0 with
  | (_, O, _) => None
  | r => Some r
  end.

(** An optional minus sign; an integer part, [0] or digits not starting
    with [0]; an optional fraction, a dot and digits; an optional exponent,
    [e] or [E], an optional sign and digits. *)
Definition parse_number (s : jsstring) : option (number * jsstring) :=
  let '(sign, s1) :=
    match s with 45 :: r => (true, r) | _ => (false, s) end in
  '(int, s2) ←
    match s1 with
    | 48 :: r => Some (0, r)
    | _ => '(n, _, r) ← digits1 s1 0; Some (n, r)
    end;
  '(m, scale, s3) ←
    match s2 with
    | 46 :: r => digits1 r int
    | _ => Some (int, O, s2)
    end;
  '(e, s4) ←
    match s3 with
    | 101 :: r | 69 :: r =>
        let '(eneg, r1) :=
          match r with
          | 45 :: r' => (true, r')
          | 43 :: r' => (false, r')
          | _ => (false, r)
          end in
        '(n, _, r2) ← digits1 r1 0;
        Some (if eneg : bool then (- Z.of_N n)%Z else Z.of_N n, r2)
    | _ => Some (0%Z, s3)
    end;
  Some (Number sign m (e - Z.of_nat scale), s4).

(** The characters of a string after its opening quote, up to and
    including the closing quote. *)
Fixpoint string_body (s acc : jsstring) : option (jsstring * jsstring) :=
  match s with
  | [] => None
  | 34 :: r => Some (reverse acc, r)
  | 92 :: e :: r =>
      match e with
      | 34 => string_body r (34 :: acc)
      | 92 => string_body r (92 :: acc)
      | 47 => string_body r (47 :: acc)
      | 98 => string_body r (8 :: acc)
      | 102 => string_body r (12 :: acc)
      | 110 => string_body r (10 :: acc)
      | 114 => string_body r (13 :: acc)
      | 116 => string_body r (9 :: acc)
      | 117 =>
          match r with
          | h1 :: h2 :: h3 :: h4 :: r' =>
              match hex_val h1, hex_val h2, hex_val h3, hex_val h4 with
              | Some a, Some b, Some c, Some d =>
                  string_body r' (((a * 16 + b) * 16 + c) * 16 + d :: acc)
              | _, _, _, _ => None
              end
          | _ => None
          end
      | _ => None
      end
  | 92 :: [] => None
  | c :: r => if c <? 32 then None else string_body r (c :: acc)
  end.

Fixpoint parse_value (fuel : nat) (s : jsstring) {struct fuel}
    : option (json * jsstring) :=
  match fuel with
  | O => None
  | S fuel' =>
      match skip_ws s with
      | 123 :: r =>
          match skip_ws r with
          | 125 :: r' => Some (JObject [], r')
          | _ => parse_members fuel' r []
          end
      | 91 :: r =>
          match skip_ws r with
          | 93 :: r' => Some (JArray [], r')
          | _ => parse_elements fuel' r []
          end
      | 34 :: r =>
          '(str, r') ← string_body r []; Some (JString str, r')
      | s' =>
          match strip_prefix (lit "true") s',
                strip_prefix (lit "false") s',
                strip_prefix (lit "null") s' with
          | Some r, _, _ => Some (JBool true, r)
          | _, Some r, _ => Some (JBool false, r)
          | _, _, Some r => Some (JNull, r)
          | _, _, _ => '(n, r) ← parse_number s'; Some (JNumber n, r)
          end
      end
  end
with parse_elements (fuel : nat) (s : jsstring) (acc : list json)
    {struct fuel} : option (json * jsstring) :=
  match fuel with
  | O => None
  | S fuel' =>
      '(v, r) ← parse_value fuel' s;
      match skip_ws r with
      | 44 :: r' => parse_elements fuel' r' (v :: acc)
      | 93 :: r' => Some (JArray (reverse (v :: acc)), r')
      | _ => None
      end
  end
with parse_members (fuel : nat) (s : jsstring)
    (acc : list (jsstring * json)) {struct fuel}
    : option (json * jsstring) :=
  match fuel with
  | O => None
  | S fuel' =>
      match skip_ws s with
      | 34 :: r =>
          '(k, r1) ← string_body r [];
          match skip_ws r1 with
          | 58 :: r2 =>
              '(v, r3) ← parse_value fuel' r2;
              match skip_ws r3 with
              | 44 :: r4 => parse_members fuel' r4 (obj_set k v acc)
              | 125 :: r4 => Some (JObject (obj_set k v acc), r4)
              | _ => None
              end
          | _ => None
          end
      | _ => None
      end
  end.

(** The whole text must be one value between optional white space.  The
    parser nests at most two calls per code unit it reads, which bounds
    the fuel. *)
Definition parse (text : jsstring) : option json :=
  match parse_value (2 * length text + 2) text with
  | Some (v, r) => match skip_ws r with [] => Some v | _ => None end
  | None => None
  end.

End Json.
Import Json.

(** ** The hosted model's interface, as the module uses it *)

Inductive ErrorKind := PlainError | SyntaxError | TypeError | ApiError.

(** An exception object: every failure the module meets carries a message. *)
Record Error := mkError { kind : ErrorKind; message : jsstring }.

(** [new Error(msg)]. *)
Definition newError (msg : jsstring) : Error := mkError PlainError msg.

(** What a call can be rejected with, and a [catch] be handed: an error
    object, which carries a message, as the SDK, [JSON.parse], a failed
    property read and the module itself throw; or [undefined] or [null],
    which have no properties to read.  All the module does with a caught
    value is read and print its message, so any other value is read as an
    error object too, [message] being the text its [message] property is
    printed as. *)
Inductive Exception :=
| ErrorObject (e : Error)
| UndefinedValue
| NullValue.
Coercion ErrorObject : Error >-> Exception.

(** How the console shows what was caught. *)
Definition thrown_text (x : Exception) : jsstring :=
  match x with
  | ErrorObject e => message e
  | UndefinedValue => lit "undefined"
  | NullValue => lit "null"
  end.

(** The client handle, [new GoogleGenAI({ apiKey })]. *)
Record GoogleGenAI := mkClient { apiKey : jsstring }.

Inductive Modality := AUDIO | TEXT | IMAGE.

Inductive Part :=
| TextPart (text : json)
| InlineDataPart (mimeType data : jsstring).

Inductive Contents :=
| PlainContents (prompt : jsstring)
| PartsContents (parts : list Part).

Record Config := mkConfig {
  responseModalities : option (list Modality);
  speechVoiceName : option jsstring;
  systemInstruction : option jsstring;
  responseMimeType : option jsstring
}.

Record Request := mkRequest {
  req_model : jsstring;
  req_contents : Contents;
  req_config : Config
}.

(** What the module reads of a response: [response.text] and
    [response.candidates?.[0]?.content?.parts?.[0]?.inlineData?.data];
    an absent member is [None]. *)
Record Blob := mkBlob { blob_data : option jsstring }.
Record ResponsePart := mkResponsePart { part_inlineData : option Blob }.
Record Content := mkContent { content_parts : option (list ResponsePart) }.
Record Candidate := mkCandidate { cand_content : option Content }.
Record Response := mkResponse {
  resp_text : option jsstring;
  resp_candidates : option (list Candidate)
}.

(** ** The world an asynchronous call runs in *)

Inductive Level := LogLevel | WarnLevel | ErrorLevel.

(** How an awaited call settles. *)
Inductive Outcome (A : Type) :=
| Returned (a : A)
| Thrown (e : Exception).
Arguments Returned {A} a.
Arguments Thrown {A} e.

Section Service.

(** The state of the hosted AI service, opaque to the client. *)
Variable Remote : Type.

(** [ai.models.generateContent(request)]: an answer or a rejection. *)
Variable generateContent :
  GoogleGenAI -> Request -> Remote -> (Response + Error) * Remote.

(** The engine's wording of a [JSON.parse] failure on a text, and of the
    read of a property, given by its name, on [null] or [undefined]. *)
Variable syntaxErrorMessage : jsstring -> jsstring.
Variable typeErrorMessage : jsstring -> jsstring.

Record World := mkWorld {
  (** [localStorage], when [typeof window !== 'undefined'] *)
  window : option (gmap (list N) (list N));
  (** [process.env.API_KEY] and [process.env.GEMINI_API_KEY] *)
  env_API_KEY : option jsstring;
  env_GEMINI_API_KEY : option jsstring;
  (** what was written with [console.log], [.warn] and [.error] *)
  console : list (Level * list jsstring);
  remote : Remote
}.

(** An asynchronous computation, awaited. *)
Definition Async (A : Type) : Type := World -> Outcome A * World.

Definition ret {A} (a : A) : Async A := fun w => (Returned a, w).
Definition throw {A} (e : Exception) : Async A := fun w => (Thrown e, w).

Definition bind {A B} (m : Async A) (f : A -> Async B) : Async B :=
  fun w =>
    match m w with
    | (Returned a, w') => f a w'
    | (Thrown e, w') => (Thrown e, w')
    end.

(** [try { m } catch (error) { h error }] and [m.catch(h)]. *)
Definition catch {A} (m : Async A) (h : Exception -> Async A) : Async A :=
  fun w =>
    match m w with
    | (Returned a, w') => (Returned a, w')
    | (Thrown e, w') => h e w'
    end.

Notation "'await' x <- m ; k" := (bind m (fun x => k))
  (at level 10, x name, m at level 100, k at level 200).
Notation "'perform' m ; k" := (bind m (fun _ => k))
  (at level 10, m at level 100, k at level 200).

Definition console_write (lvl : Level) (args : list jsstring) : Async unit :=
  fun w =>
    (Returned tt,
     mkWorld (window w) (env_API_KEY w) (env_GEMINI_API_KEY w)
             (console w ++ [(lvl, args)]) (remote w)).

Definition models_generateContent (ai : GoogleGenAI) (req : Request)
    : Async Response :=
  fun w =>
    let '(r, rem) := generateContent ai req (remote w) in
    let w' := mkWorld (window w) (env_API_KEY w) (env_GEMINI_API_KEY w)
                      (console w) rem in
    match r with
    | inl resp => (Returned resp, w')
    | inr e => (Thrown e, w')
    end.

(** [localStorage.getItem(key)] in a browser context; [None] is [null],
    also when there is no [window]. *)
Definition localStorage_getItem (key : jsstring) (w : World)
    : option jsstring :=
  match window w with
  | Some storage => storage !! key
  | None => None
  end.

(** [a || b] on strings that may be absent: [a] when it is a non-empty
    string. *)
Definition or_else (a b : option jsstring) : option jsstring :=
  match a with
  | Some (_ :: _) => a
  | _ => b
  end.

Definition JSON_parse (text : jsstring) : Async json :=
  match Json.parse text with
  | Some v => ret v
  | None => throw (mkError SyntaxError (syntaxErrorMessage text))
  end.

(** [result.name], [result] being a parsed value: reading a property of
    [null] throws; a value without that property gives [undefined]. *)
Definition get_property (result : json) (name : jsstring) : Async jsvalue :=
  match result with
  | JNull => throw (mkError TypeError (typeErrorMessage name))
  | _ => ret (member result name)
  end.

(** ** Configuration constants *)

Record SupportedModel := mkSupportedModel {
  model_id : jsstring;
  model_name : jsstring;
  model_desc : jsstring;
  model_isNew : option bool
}.

Definition SUPPORTED_MODELS : list SupportedModel :=
  [ mkSupportedModel (lit "gemini-3-flash-preview") (lit "Gemini 3 Flash")
      (lit "Fastest, low latency (Default)") (Some true);
    mkSupportedModel (lit "gemini-3-pro-preview") (lit "Gemini 3 Pro")
      (lit "High intelligence, complex tasks") (Some true);
    mkSupportedModel (lit "gemini-2.5-flash") (lit "Gemini 2.5 Flash")
      (lit "Balanced performance") None ].

Definition FALLBACK_ORDER : list jsstring :=
  [ lit "gemini-3-flash-preview"; lit "gemini-3-pro-preview";
    lit "gemini-2.5-flash" ].

(** ** 2. Get API Key (LocalStorage -> Env) *)

Definition getApiKey (w : World) : jsstring :=
  match window w, localStorage_getItem (lit "lingua_api_key") w with
  | Some _, Some (c :: k) => c :: k
  | _, _ =>
      match or_else (env_API_KEY w) (env_GEMINI_API_KEY w) with
      | Some (c :: k) => c :: k
      | _ => []
      end
  end.

(** ** 3. Retry / Fallback Wrapper *)

(** [Array.from(new Set(items))]: the members in insertion order, an
    item already present is not added again. *)
Definition set_add (s : list jsstring) (x : jsstring) : list jsstring :=
  if bool_decide (x ∈ s) then s else s ++ [x].

Definition array_from_set (items : list jsstring) : list jsstring :=
  foldl set_add [] items.

(** The starting model: the saved one when it is a supported model. *)
Definition currentModel (w : World) : jsstring :=
  match window w, localStorage_getItem (lit "lingua_selected_model") w with
  | Some _, Some (c :: saved) =>
      if existsb (fun m => eqb (model_id m) (c :: saved)) SUPPORTED_MODELS
      then c :: saved
      else lit "gemini-3-flash-preview"
  | _, _ => lit "gemini-3-flash-preview"
  end.

Definition uniqueFallbacks (w : World) : list jsstring :=
  array_from_set (currentModel w :: FALLBACK_ORDER).

Definition attempt_line (operationName model : jsstring) : jsstring :=
  lit "[" ++ operationName ++ lit "] Attempting with model: " ++ model.

Definition failed_line (operationName model : jsstring) : jsstring :=
  lit "[" ++ operationName ++ lit "] Failed with model " ++ model ++ lit ":".

(** The world after the [console.log] that opens an attempt, and after
    the [console.warn] that closes a failed one. *)
Definition log_attempt (operationName model : jsstring) (w : World) : World :=
  (console_write LogLevel [attempt_line operationName model] w).2.

Definition log_failed (operationName model : jsstring) (error : Error)
    (w : World) : World :=
  (console_write WarnLevel
     [failed_line operationName model; message error] w).2.

Definition exhausted_message (lastError : option Error) : jsstring :=
  lit "System overloaded or Model Error. Please try again later. (Last error: "
  ++ match lastError with
     | Some e => message e
     | None => lit "undefined"
     end
  ++ lit ")".

Section Retry.
Context {T : Type}.
Variable operationName : jsstring.
Variable operationFn : jsstring -> GoogleGenAI -> Async T.
Variable key : jsstring.

(** The [for .. of] loop with its [try]/[catch].  Next to the outcome
    it lists the models [operationFn] was called with, in call order.
    The handler reads [error.message] before it warns and records the
    error: when what was caught is [undefined] or [null] that read
    throws, and the type error leaves the loop and the call. *)
Fixpoint retry_loop (models : list jsstring) (lastError : option Error)
    (w : World) : Outcome T * World * list jsstring :=
  match models with
  | [] => (Thrown (newError (exhausted_message lastError)), w, [])
  | model :: rest =>
      let w1 := log_attempt operationName model w in
      let client := mkClient key in
      match operationFn model client w1 with
      | (Returned r, w2) => (Returned r, w2, [model])
      | (Thrown (ErrorObject error), w2) =>
          let w3 := log_failed operationName model error w2 in
          let '(res, w4, called) := retry_loop rest (Some error) w3 in
          (res, w4, model :: called)
      | (Thrown (UndefinedValue | NullValue), w2) =>
          (Thrown (mkError TypeError (typeErrorMessage (lit "message"))),
           w2, [model])
      end
  end.
End Retry.

Definition missing_key_message : jsstring :=
  lit "API Key is missing. Please click 'Settings' to add your key.".

Definition callAIWithRetry_traced {T} (operationName : jsstring)
    (operationFn : jsstring -> GoogleGenAI -> Async T) (w : World)
    : Outcome T * World * list jsstring :=
  match getApiKey w with
  | [] => (Thrown (newError missing_key_message), w, [])
  | c :: k =>
      retry_loop operationName operationFn (c :: k)
        (uniqueFallbacks w) None w
  end.

Definition callAIWithRetry {T} (operationName : jsstring)
    (operationFn : jsstring -> GoogleGenAI -> Async T) : Async T :=
  fun w => (callAIWithRetry_traced operationName operationFn w).1.

(** The models [operationFn] was called with during the call. *)
Definition attempts {T} (operationName : jsstring)
    (operationFn : jsstring -> GoogleGenAI -> Async T) (w : World)
    : list jsstring :=
  (callAIWithRetry_traced operationName operationFn w).2.


(** ** Prompts

    The template literals of the task callers; [tpl] turns each [~] into
    a double quote. *)

(** The prompt of [analyzeWriting]. *)
Definition writing_prompt (taskType text : jsstring) : jsstring :=
  tpl "
      Act as an expert English teacher and examiner for "
  ++ taskType
  ++ tpl ".
      Analyze the following text provided by a student.
      
      Student Text: ~"
  ++ text
  ++ tpl "~
  
      Your task:
      1. Check for grammatical errors, spelling mistakes, and awkward phrasing.
      2. Suggest better vocabulary appropriate for a high-level context.
      3. Give a band score (0-10 scale based on accuracy and complexity).
      4. Provide a rewritten, improved version of the text.
      5. Provide specific sub-scores for: Task Response, Coherence & Cohesion, Lexical Resource, Grammatical Range & Accuracy.
  
      Return the result strictly in this JSON format:
      {
        ~score~: number,
        ~scoreBreakdown~: {
          ~Task Response~: number,
          ~Coherence~: number,
          ~Vocabulary~: number,
          ~Grammar~: number
        },
        ~feedback~: ~string (general encouraging feedback)~,
        ~detailedErrors~: [
          {
            ~original~: ~string (the mistake)~,
            ~correction~: ~string (the fix)~,
            ~explanation~: ~string (why it is wrong)~,
            ~type~: ~grammar~ | ~vocabulary~ | ~coherence~
          }
        ],
        ~improvedVersion~: ~string~
      }
    ".

(** The system instruction of [interactWithExaminer]. *)
Definition examiner_system_instruction (topic context : jsstring) : jsstring :=
  tpl "
        You are a friendly but professional IELTS Speaking Examiner. 
        The topic is: ~"
  ++ topic
  ++ tpl "~.
        Your goal is to conduct a short interview.
        Current Conversation History:
        "
  ++ context
  ++ tpl "
      ".

(** The prompts of [interactWithExaminer]: start of session, with and
    without a fixed question; then after an audio answer, on the final
    turn, with a fixed next question, and with a free follow-up. *)
Definition start_prompt_specific (specificQuestion : jsstring) : jsstring :=
  tpl "Start the interview. Introduce yourself briefly (1 sentence) and ask exactly this question: ~"
  ++ specificQuestion
  ++ tpl "~. Return JSON: { ~transcription~: ~~, ~response~: ~Your intro and question~ }".

Definition start_prompt_topic (topic : jsstring) : jsstring :=
  tpl "Start the interview. Introduce yourself briefly and ask the first question about ~"
  ++ topic
  ++ tpl "~. Return JSON: { ~transcription~: ~~, ~response~: ~Your intro and question~ }".

Definition finish_prompt (transcriptionInstruction : jsstring) : jsstring :=
  tpl "
              The user just answered the final question via audio.
              "
  ++ transcriptionInstruction
  ++ tpl "
              2. Generate a brief polite closing statement (e.g. ~Thank you for your answers. The test is now finished.~).
              Do NOT ask another question.
              Return JSON: { ~transcription~: ~exact words spoken by student~, ~response~: ~Closing statement~ }
            ".

Definition next_prompt_specific (transcriptionInstruction specificQuestion : jsstring) : jsstring :=
  tpl "
              The user just answered via audio. 
              "
  ++ transcriptionInstruction
  ++ tpl "
              2. Generate a brief, natural response to acknowledge their answer (e.g., ~That's interesting,~ ~I see~).
              3. Ask exactly this NEXT question: ~"
  ++ specificQuestion
  ++ tpl "~.
              4. Keep your response concise (under 30 words) so the student talks more.
              Return JSON: { ~transcription~: ~exact words spoken by student~, ~response~: ~Your reaction + next question~ }
            ".

Definition next_prompt_follow_up (transcriptionInstruction : jsstring) : jsstring :=
  tpl "
              The user just answered via audio. 
              "
  ++ transcriptionInstruction
  ++ tpl "
              2. Generate a brief, natural response to acknowledge their answer (e.g., ~That's interesting,~ ~I see~).
              3. Ask the NEXT follow-up question related to the topic.
              4. Keep your response concise (under 30 words) so the student talks more.
              Return JSON: { ~transcription~: ~exact words spoken by student~, ~response~: ~Your reaction + next question~ }
            ".

(** The prompt of [gradeSpeakingSession]. *)
Definition grading_prompt (topic transcript : jsstring) : jsstring :=
  tpl "
        Act as a Speaking Examiner.
        Topic: ~"
  ++ topic
  ++ tpl "~.
        HERE IS THE TRANSCRIPT:
        "
  ++ transcript
  ++ tpl "

        Your task is to evaluate the student's performance based STRICTLY on the following rubric (Total 10 points):
        **1. Content (Max 3)**
        **2. Language (Max 3)**
        **3. Pronunciation (Max 2)**
        **4. Fluency (Max 2)**

        Return the result strictly in this JSON format:
        {
          ~transcription~: ~Full session transcript...~,
          ~score~: number, 
          ~scoreBreakdown~: { ~Content~: number, ~Language~: number, ~Pronunciation~: number, ~Fluency~: number },
          ~feedback~: ~string (Overall feedback in Vietnamese or English)~,
          ~detailedErrors~: [ { ~original~: ~...~, ~correction~: ~...~, ~explanation~: ~...~, ~type~: ~pronunciation~ } ]
        }
      ".

(** The prompt of [analyzePronunciation]. *)
Definition pronunciation_prompt (targetText : jsstring) : jsstring :=
  tpl "
        Act as a strict pronunciation coach.
        The student is trying to read this specific sentence: ~"
  ++ targetText
  ++ tpl "~.
        Analyze the attached audio recording based on the following rubric (Total 10 points).
        
        * Articulation (3)
        * Intonation & Stress (3)
        * Fluency & Linking (2)
        * Confidence (2)

        Return JSON:
        {
          ~transcription~: ~string~,
          ~score~: number,
          ~scoreBreakdown~: { ~Articulation~: number, ~Intonation~: number, ~Fluency~: number, ~Confidence~: number },
          ~feedback~: ~string~,
          ~detailedErrors~: []
        }
      ".

(** ** Service functions

    Each caller hands [callAIWithRetry] a closure over its arguments;
    the closure is named after the caller, and the request it sends is
    named apart. *)

Inductive Role := ai_role | user_role.

Record ChatMessage := mkChatMessage {
  role : Role;
  text : jsstring;
  audioUrl : option jsstring
}.

Inductive TaskType := IELTS | TOEIC | General.

Definition TaskType_string (t : TaskType) : jsstring :=
  match t with
  | IELTS => lit "IELTS"
  | TOEIC => lit "TOEIC"
  | General => lit "General"
  end.

(** [lines.join(sep)]. *)
Fixpoint join (sep : jsstring) (lines : list jsstring) : jsstring :=
  match lines with
  | [] => []
  | [l] => l
  | l :: ls => l ++ sep ++ join sep ls
  end.

(** [response.text || "{}"]. *)
Definition text_or_empty_object (t : option jsstring) : jsstring :=
  match t with
  | Some (c :: s) => c :: s
  | _ => lit "{}"
  end.

(** [cleanJsonString(response.text || "{}")]. *)
Definition jsonText (response : Response) : jsstring :=
  cleanJsonString (text_or_empty_object (resp_text response)).

(** [result.transcription], or the empty string when that is falsy. *)
Definition transcription_or_empty (transcription : jsvalue) : json :=
  if truthy transcription
  then default (JString []) transcription
  else JString [].

Definition json_config : Config :=
  mkConfig None None None (Some (lit "application/json")).

Definition speech_config : Config :=
  mkConfig (Some [AUDIO]) (Some (lit "Kore")) None None.

(** The request of [generateSpeech].  [text] is whatever value the caller
    hands over: [interactWithExaminer] passes a member of an untyped
    parsed result. *)
Definition generateSpeech_request (text : json) (model : jsstring)
    : Request :=
  mkRequest model (PartsContents [TextPart text]) speech_config.

(** [response.candidates?.[0]?.content?.parts?.[0]?.inlineData?.data]. *)
Definition first_inline_data (response : Response) : option jsstring :=
  candidates ← resp_candidates response;
  candidate ← head candidates;
  content ← cand_content candidate;
  parts ← content_parts content;
  part ← head parts;
  inlineData ← part_inlineData part;
  blob_data inlineData.

Definition generateSpeech_operation (text : json) (model : jsstring)
    (ai : GoogleGenAI) : Async jsstring :=
  await response <-
    models_generateContent ai (generateSpeech_request text model);
  let base64Audio := first_inline_data response in
  match base64Audio with
  | Some (c :: d) => ret (c :: d)
  | _ => throw (newError (lit "No audio generated"))
  end.

Definition generateSpeech (text : json) : Async jsstring :=
  catch
    (callAIWithRetry (lit "generateSpeech") (generateSpeech_operation text))
    (fun err =>
       perform console_write ErrorLevel
         [lit "TTS Final Fail:"; thrown_text err];
       ret []).

Definition analyzeWriting_request (text : jsstring) (taskType : TaskType)
    (model : jsstring) : Request :=
  let prompt := writing_prompt (TaskType_string taskType) text in
  mkRequest model (PlainContents prompt) json_config.

Definition analyzeWriting_operation (text : jsstring) (taskType : TaskType)
    (model : jsstring) (ai : GoogleGenAI) : Async json :=
  await response <-
    models_generateContent ai (analyzeWriting_request text taskType model);
  JSON_parse (jsonText response).

(** [taskType] defaults to [General]. *)
Definition analyzeWriting (text : jsstring) (taskType : TaskType)
    : Async json :=
  callAIWithRetry (lit "analyzeWriting")
    (analyzeWriting_operation text taskType).

Record ExaminerTurn := mkExaminerTurn {
  userTranscription : json;
  aiResponse : jsvalue;
  aiAudioBase64 : jsstring
}.

(** The properties of the object literal [interactWithExaminer]
    returns, in the order they are written. *)
Definition ExaminerTurn_properties (t : ExaminerTurn)
    : list (jsstring * jsvalue) :=
  [ (lit "userTranscription", Some (userTranscription t));
    (lit "aiResponse", aiResponse t);
    (lit "aiAudioBase64", Some (JString (aiAudioBase64 t))) ].

Definition examiner_parts (topic : jsstring)
    (userAudioBase64 specificQuestion : option jsstring) (isFinish : bool)
    : list Part :=
  match userAudioBase64 with
  | Some (c :: audio) =>
      let transcriptionInstruction :=
        lit "1. Transcribe the user's audio accurately." in
      let prompt :=
        if isFinish then finish_prompt transcriptionInstruction
        else match specificQuestion with
             | Some (d :: q) =>
                 next_prompt_specific transcriptionInstruction (d :: q)
             | _ => next_prompt_follow_up transcriptionInstruction
             end in
      [ InlineDataPart (lit "audio/webm; codecs=opus") (c :: audio);
        TextPart (JString prompt) ]
  | _ =>
      let prompt :=
        match specificQuestion with
        | Some (d :: q) => start_prompt_specific (d :: q)
        | _ => start_prompt_topic topic
        end in
      [ TextPart (JString prompt) ]
  end.

Definition interactWithExaminer_request (history : list ChatMessage)
    (topic : jsstring) (userAudioBase64 specificQuestion : option jsstring)
    (isFinish : bool) (model : jsstring) : Request :=
  let context :=
    join [newline]
      ((fun h =>
          (match role h with
           | ai_role => lit "Examiner"
           | user_role => lit "Student"
           end) ++ lit ": " ++ text h) <$> history) in
  let config :=
    mkConfig None None (Some (examiner_system_instruction topic context))
      (Some (lit "application/json")) in
  mkRequest model
    (PartsContents
       (examiner_parts topic userAudioBase64 specificQuestion isFinish))
    config.

(** Step 3 of the operation of [interactWithExaminer], the audio
    generation, and the object it returns. *)
Definition examiner_turn (result : json) : Async ExaminerTurn :=
  await response_member <- get_property result (lit "response");
  await aiAudioBase64 <-
    (if truthy response_member
     then match response_member with
          | Some spoken => generateSpeech spoken
          | None => ret []
          end
     else ret []);
  await transcription <- get_property result (lit "transcription");
  await response_again <- get_property result (lit "response");
  ret (mkExaminerTurn (transcription_or_empty transcription)
         response_again aiAudioBase64).

(** Steps 1 and 2, the request and the call, then step 3. *)
Definition interactWithExaminer_operation (history : list ChatMessage)
    (topic : jsstring) (userAudioBase64 specificQuestion : option jsstring)
    (isFinish : bool) (model : jsstring) (ai : GoogleGenAI)
    : Async ExaminerTurn :=
  await response <-
    models_generateContent ai
      (interactWithExaminer_request history topic userAudioBase64
         specificQuestion isFinish model);
  await result <- JSON_parse (jsonText response);
  examiner_turn result.

(** [isFinish] defaults to [false]. *)
Definition interactWithExaminer (history : list ChatMessage)
    (topic : jsstring) (userAudioBase64 specificQuestion : option jsstring)
    (isFinish : bool) : Async ExaminerTurn :=
  callAIWithRetry (lit "interactWithExaminer")
    (interactWithExaminer_operation history topic userAudioBase64
       specificQuestion isFinish).

Definition gradeSpeakingSession_request (fullHistory : list ChatMessage)
    (topic : jsstring) (lastAudioBase64 : option jsstring)
    (model : jsstring) : Request :=
  let transcript :=
    join [newline]
      ((fun h =>
          (match role h with
           | ai_role => lit "AI"
           | user_role => lit "USER"
           end) ++ lit ": " ++ text h) <$> fullHistory) in
  let prompt := grading_prompt topic transcript in
  let parts :=
    match lastAudioBase64 with
    | Some (c :: audio) =>
        [ InlineDataPart (lit "audio/webm; codecs=opus") (c :: audio) ]
    | _ => []
    end ++ [ TextPart (JString prompt) ] in
  mkRequest model (PartsContents parts) json_config.

Definition gradeSpeakingSession_operation (fullHistory : list ChatMessage)
    (topic : jsstring) (lastAudioBase64 : option jsstring)
    (model : jsstring) (ai : GoogleGenAI) : Async json :=
  await response <-
    models_generateContent ai
      (gradeSpeakingSession_request fullHistory topic lastAudioBase64 model);
  JSON_parse (jsonText response).

Definition gradeSpeakingSession (fullHistory : list ChatMessage)
    (topic : jsstring) (lastAudioBase64 : option jsstring) : Async json :=
  callAIWithRetry (lit "gradeSpeakingSession")
    (gradeSpeakingSession_operation fullHistory topic lastAudioBase64).

(** [topic] defaults to ["General English"]. *)
Definition analyzeSpeaking (audioBase64 topic : jsstring) : Async json :=
  gradeSpeakingSession
    [ mkChatMessage user_role (lit "(Audio Transcript Placeholder)") None ]
    topic (Some audioBase64).

Definition analyzePronunciation_request (audioBase64 targetText : jsstring)
    (model : jsstring) : Request :=
  let prompt := pronunciation_prompt targetText in
  mkRequest model
    (PartsContents
       [ InlineDataPart (lit "audio/webm; codecs=opus") audioBase64;
         TextPart (JString prompt) ])
    json_config.

Definition analyzePronunciation_operation (audioBase64 targetText : jsstring)
    (model : jsstring) (ai : GoogleGenAI) : Async json :=
  await response <-
    models_generateContent ai
      (analyzePronunciation_request audioBase64 targetText model);
  JSON_parse (jsonText response).

Definition analyzePronunciation (audioBase64 targetText : jsstring)
    : Async json :=
  callAIWithRetry (lit "analyzePronunciation")
    (analyzePronunciation_operation audioBase64 targetText).

End Service.

Arguments mkWorld {Remote}.
Arguments window {Remote}.
Arguments env_API_KEY {Remote}.
Arguments env_GEMINI_API_KEY {Remote}.
Arguments console {Remote}.
Arguments remote {Remote}.
Arguments ret {Remote A}.
Arguments throw {Remote A}.
Arguments bind {Remote A B}.
Arguments catch {Remote A}.
Arguments console_write {Remote}.
Arguments models_generateContent {Remote}.
Arguments localStorage_getItem {Remote}.
Arguments JSON_parse {Remote}.
Arguments get_property {Remote}.
Arguments getApiKey {Remote}.
Arguments currentModel {Remote}.
Arguments uniqueFallbacks {Remote}.
Arguments log_attempt {Remote}.
Arguments log_failed {Remote}.
Arguments retry_loop {Remote} typeErrorMessage {T}.
Arguments callAIWithRetry_traced {Remote} typeErrorMessage {T}.
Arguments callAIWithRetry {Remote} typeErrorMessage {T}.
Arguments attempts {Remote} typeErrorMessage {T}.
Arguments generateSpeech_operation {Remote}.
Arguments generateSpeech {Remote}.
Arguments analyzeWriting_operation {Remote}.
Arguments analyzeWriting {Remote}.
Arguments examiner_turn {Remote}.
Arguments interactWithExaminer_operation {Remote}.
Arguments interactWithExaminer {Remote}.
Arguments gradeSpeakingSession_operation {Remote}.
Arguments gradeSpeakingSession {Remote}.
Arguments analyzeSpeaking {Remote}.
Arguments analyzePronunciation_operation {Remote}.
Arguments analyzePronunciation {Remote}.
Arguments lit : simpl never.
Arguments tpl : simpl never.

(** ** The cleaner, in the words of the specification

    Every occurrence of the language-tagged marker, with the line break
    that may follow it, and of the bare marker is deleted, scanning from
    the left; everything else is kept. *)
Inductive deletes_fences : jsstring -> jsstring -> Prop :=
| deletes_done :
    deletes_fences [] []
| deletes_tagged_newline rest out :
    deletes_fences rest out ->
    deletes_fences (lit "```json" ++ newline :: rest) out
| deletes_tagged rest out :
    head rest <> Some newline ->
    deletes_fences rest out ->
    deletes_fences (lit "```json" ++ rest) out
| deletes_bare rest out :
    strip_prefix (lit "json") rest = None ->
    deletes_fences rest out ->
    deletes_fences (lit "```" ++ rest) out
| deletes_keep c rest out :
    strip_prefix (lit "```") (c :: rest) = None ->
    deletes_fences rest out ->
    deletes_fences (c :: rest) (c :: out).

(** Nothing but white space, as [trim] sees it. *)
Definition all_white_space (s : jsstring) : Prop :=
  Forall (fun c => is_white_space c = true) s.

(** ** Runs of failed attempts

    [attempts_fail name op key models w last w' last']: started in [w]
    with [last] as the last recorded error, the operation is tried on
    each of [models] in turn and every time is rejected with an error
    object; [w'] is the world after the last warning and [last'] the last
    recorded error. *)
Inductive attempts_fail {Remote T} (operationName : jsstring)
    (operationFn : jsstring -> GoogleGenAI -> Async Remote T)
    (key : jsstring)
    : list jsstring -> World Remote -> option Error ->
      World Remote -> option Error -> Prop :=
| attempts_fail_nil w last :
    attempts_fail operationName operationFn key [] w last w last
| attempts_fail_cons model rest w last (error : Error) w2 w' last' :
    operationFn model (mkClient key) (log_attempt operationName model w)
      = (Thrown error, w2) ->
    attempts_fail operationName operationFn key rest
      (log_failed operationName model error w2) (Some error) w' last' ->
    attempts_fail operationName operationFn key (model :: rest) w last w' last'.

(** [undefined] or [null]. *)
Definition nullish (x : Exception) : Prop :=
  x = UndefinedValue \/ x = NullValue.

(** A computation that throws error objects only, never [undefined] or
    [null]. *)
Definition throws_error_objects {Remote A} (m : Async Remote A) : Prop :=
  forall w (x : Exception) w',
    m w = (Thrown x, w') -> exists e : Error, x = ErrorObject e.

(** An operation whose rejections are error objects. *)
Definition rejects_with_error_objects {Remote T}
    (operationFn : jsstring -> GoogleGenAI -> Async Remote T) : Prop :=
  forall model ai, throws_error_objects (operationFn model ai).

(** Two worlds that differ at most in what the console shows. *)
Definition same_but_console {Remote} (w w' : World Remote) : Prop :=
  window w = window w' /\ env_API_KEY w = env_API_KEY w' /\
  env_GEMINI_API_KEY w = env_GEMINI_API_KEY w' /\ remote w = remote w'.

(** An operation that does not read the console: how it settles and
    what it leaves of the world, the console apart, do not depend on what
    the console shows. *)
Definition ignores_console {Remote T}
    (operationFn : jsstring -> GoogleGenAI -> Async Remote T) : Prop :=
  forall model ai w w',
    same_but_console w w' ->
    (operationFn model ai w).1 = (operationFn model ai w').1 /\
    same_but_console (operationFn model ai w).2 (operationFn model ai w').2.

(** ** Parse failures as attempt failures

    What it means for a caller, given by its label, its operation and the
    request it sends, to treat text that does not parse as a failed
    attempt: the operation throws the syntax error after the one request,
    the loop records it and goes on with the remaining candidates, and the
    wrapper never throws a syntax error itself: whatever it throws is an
    error of its own making. *)
Definition falls_back_on_malformed {Remote T}
    (generateContent :
       GoogleGenAI -> Request -> Remote -> (Response + Error) * Remote)
    (syntaxErrorMessage typeErrorMessage : jsstring -> jsstring)
    (operationName : jsstring)
    (operationFn : jsstring -> GoogleGenAI -> Async Remote T)
    (request : jsstring -> Request) : Prop :=
  (forall key model rest last (w w1 : World Remote) response,
      models_generateContent generateContent (mkClient key) (request model)
        (log_attempt operationName model w) = (Returned response, w1) ->
      Json.parse (jsonText response) = None ->
      let error :=
        mkError SyntaxError (syntaxErrorMessage (jsonText response)) in
      operationFn model (mkClient key) (log_attempt operationName model w)
        = (Thrown error, w1) /\
      retry_loop typeErrorMessage operationName operationFn key
        (model :: rest) last w =
        (let '(res, w', called) :=
           retry_loop typeErrorMessage operationName operationFn key rest
             (Some error) (log_failed operationName model error w1) in
         (res, w', model :: called))) /\
  (forall (w w' : World Remote) (thrown : Exception),
      callAIWithRetry typeErrorMessage operationName operationFn w
        = (Thrown thrown, w') ->
      exists e : Error, thrown = ErrorObject e /\ kind e = PlainError).

(** ** A small hosted service to run the callers against

    The service keeps the requests it received.  It answers the first
    fallback model with text that is not JSON, the other models with a
    fenced score, and never produces audio. *)
Module Demo.

Definition fenced_score : jsstring :=
  lit "```json" ++ newline :: tpl "{~score~:7}" ++ newline :: lit "```".

Definition score7 : json :=
  JObject [(lit "score", JNumber (Number false 7 0))].

Definition service (ai : GoogleGenAI) (req : Request) (seen : list Request)
    : (Response + Error) * list Request :=
  (if eqb (req_model req) (lit "gemini-3-flash-preview")
   then inl (mkResponse (Some (lit "not json")) None)
   else inl (mkResponse (Some fenced_score) None),
   seen ++ [req]).

(** A service whose answers carry no text at all. *)
Definition silent_service (ai : GoogleGenAI) (req : Request)
    (seen : list Request) : (Response + Error) * list Request :=
  (inl (mkResponse None None), seen ++ [req]).

(** A service that answers an interview turn and rejects every request
    for audio. *)
Definition mute_service (ai : GoogleGenAI) (req : Request)
    (seen : list Request) : (Response + Error) * list Request :=
  (match responseModalities (req_config req) with
   | Some _ => inr (mkError ApiError (lit "audio is not supported"))
   | None =>
       inl (mkResponse
              (Some (tpl "{~transcription~:~hi~,~response~:~Hello!~}")) None)
   end,
   seen ++ [req]).

(** A service with a voice: it answers a request for audio with a
    payload and any other request with an interview turn. *)
Definition speaking_service (ai : GoogleGenAI) (req : Request)
    (seen : list Request) : (Response + Error) * list Request :=
  (match responseModalities (req_config req) with
   | Some _ =>
       inl (mkResponse None
              (Some [ mkCandidate
                        (Some (mkContent
                           (Some [ mkResponsePart
                                     (Some (mkBlob (Some (lit "UklGRg=="))))
                                 ]))) ]))
   | None =>
       inl (mkResponse
              (Some (tpl "{~transcription~:~hi~,~response~:~Hello!~}")) None)
   end,
   seen ++ [req]).

Definition engine_message (text : jsstring) : jsstring :=
  lit "Unexpected token in JSON".

(** The engine's wording of a property read on [undefined]. *)
Definition type_error_message (name : jsstring) : jsstring :=
  lit "Cannot read properties of undefined (reading '" ++ name ++ lit "')".

(** A browser with a stored key and no stored model. *)
Definition browser : World (list Request) :=
  mkWorld (Some (<[lit "lingua_api_key" := lit "AIza-demo"]> ∅))
    None None [] [].

(** A browser in which Gemini 2.5 Flash was selected. *)
Definition browser_25 : World (list Request) :=
  mkWorld
    (Some (<[lit "lingua_selected_model" := lit "gemini-2.5-flash"]>
             (<[lit "lingua_api_key" := lit "AIza-demo"]> ∅)))
    None None [] [].

(** No stored key and no key in the process configuration. *)
Definition no_key : World (list Request) :=
  mkWorld (Some ∅) None None [] [].

(** An operation that fails on the first fallback model only. *)
Definition flaky (model : jsstring) (ai : GoogleGenAI)
    : Async (list Request) jsstring :=
  if eqb model (lit "gemini-3-flash-preview")
  then throw (newError (lit "overloaded"))
  else ret (lit "done by " ++ model).

(** An operation that is rejected with [undefined] on the first fallback
    model and returns on the others. *)
Definition faint (model : jsstring) (ai : GoogleGenAI)
    : Async (list Request) jsstring :=
  if eqb model (lit "gemini-3-flash-preview")
  then throw UndefinedValue
  else ret (lit "done by " ++ model).

(** An operation that is rejected with [undefined] on every model. *)
Definition void (model : jsstring) (ai : GoogleGenAI)
    : Async (list Request) jsstring :=
  throw UndefinedValue.

(** An operation that fails on every model. *)
Definition hopeless (model : jsstring) (ai : GoogleGenAI)
    : Async (list Request) jsstring :=
  throw (newError (lit "quota exceeded for " ++ model)).

End Demo.

(** ** Observing the requests

    Any hosted service can be made to keep, next to its own state, the
    requests it receives, in the order it receives them. *)
Definition recording {Remote}
    (generateContent :
       GoogleGenAI -> Request -> Remote -> (Response + Error) * Remote)
    (ai : GoogleGenAI) (req : Request) (state : Remote * list Request)
    : (Response + Error) * (Remote * list Request) :=
  let '(answer, rem) := generateContent ai req state.1 in
  (answer, (rem, state.2 ++ [req])).

(** The requests the service has received so far. *)
Definition sent {Remote} (w : World (Remote * list Request)) : list Request :=
  (remote w).2.

(** What it means for a service function [run], which hands the wrapper
    the operation [operationFn] under the label [operationName], to send
    one request per attempt: the requests it adds are the [request]s of
    the models the operation was called with, in call order, so they are
    at most three and go to models that differ from one another. *)
Definition one_request_per_attempt {Remote A T}
    (typeErrorMessage : jsstring -> jsstring)
    (run : Async (Remote * list Request) A)
    (operationName : jsstring)
    (operationFn :
       jsstring -> GoogleGenAI -> Async (Remote * list Request) T)
    (request : jsstring -> Request) : Prop :=
  forall w,
    let called := attempts typeErrorMessage operationName operationFn w in
    sent (run w).2 = sent w ++ (request <$> called) /\
    req_model <$> (request <$> called) = called /\
    (length called <= 3)%nat /\
    NoDup called.

(** ** Reading the console *)

Definition level_eqb (a b : Level) : bool :=
  match a, b with
  | LogLevel, LogLevel | WarnLevel, WarnLevel | ErrorLevel, ErrorLevel => true
  | _, _ => false
  end.

(** The lines written at one level, in the order written. *)
Definition console_lines_at (lvl : Level)
    (lines : list (Level * list jsstring)) : list (list jsstring) :=
  snd <$> filter (fun line => level_eqb line.1 lvl = true) lines.

(** ** What a call leaves alone

    The stored settings and the process configuration are the same in
    [w'] as in [w], and the console of [w'] continues that of [w]. *)
Definition keeps_settings {Remote} (w w' : World Remote) : Prop :=
  window w' = window w /\
  env_API_KEY w' = env_API_KEY w /\
  env_GEMINI_API_KEY w' = env_GEMINI_API_KEY w /\
  console w `prefix_of` console w'.

(** A computation that, from every world, keeps the settings. *)
Definition preserves_settings {Remote A} (m : Async Remote A) : Prop :=
  forall w, keeps_settings w (m w).2.

(** A string that is absent or empty: falsy, where a string is expected. *)
Definition blank (s : option jsstring) : Prop := s = None \/ s = Some [].

(** ** The settings dialog *)

Inductive AIModelType :=
| gemini_3_flash_preview
| gemini_3_pro_preview
| gemini_2_5_flash.

(** The string a value of the type is. *)
Definition AIModelType_string (m : AIModelType) : jsstring :=
  match m with
  | gemini_3_flash_preview => lit "gemini-3-flash-preview"
  | gemini_3_pro_preview => lit "gemini-3-pro-preview"
  | gemini_2_5_flash => lit "gemini-2.5-flash"
  end.

(** The data among the properties of [SettingsModal]; the callbacks
    [setApiKey] and [setSelectedModel] only feed these back, and
    [onClose] is passed apart. *)
Record SettingsProps := mkSettingsProps {
  isOpen : bool;
  props_apiKey : jsstring;
  selectedModel : AIModelType
}.

(** [localStorage.setItem(key, value)]; [None] where there is no
    [localStorage] to write to. *)
Definition localStorage_setItem {Remote} (key value : jsstring)
    (w : World Remote) : option (World Remote) :=
  match window w with
  | Some storage =>
      Some (mkWorld (Some (<[key := value]> storage)) (env_API_KEY w)
              (env_GEMINI_API_KEY w) (console w) (remote w))
  | None => None
  end.

Definition handleSave {Remote} (onClose : World Remote -> World Remote)
    (props : SettingsProps) (w : World Remote) : option (World Remote) :=
  w1 ← localStorage_setItem (lit "lingua_api_key") (props_apiKey props) w;
  w2 ← localStorage_setItem (lit "lingua_selected_model")
         (AIModelType_string (selectedModel props)) w1;
  Some (onClose w2).

(** A click on the Save button: the dialog renders nothing when it is not
    open, and the button is disabled while the key is empty; then the
    click does nothing. *)
Definition click_save {Remote} (onClose : World Remote -> World Remote)
    (props : SettingsProps) (w : World Remote) : option (World Remote) :=
  if isOpen props
  then match props_apiKey props with
       | [] => Some w
       | _ :: _ => handleSave onClose props w
       end
  else Some w.

(** ** The login screen *)

(** [s.toLowerCase()] on a string of ASCII characters. *)
Definition toLowerCase_ascii (s : jsstring) : jsstring :=
  (fun c => if (65 <=? c) && (c <=? 90) then c + 32 else c) <$> s.

(** [s.toUpperCase()] on a string of ASCII characters. *)
Definition toUpperCase_ascii (s : jsstring) : jsstring :=
  (fun c => if (97 <=? c) && (c <=? 122) then c - 32 else c) <$> s.

Definition ascii_only (s : jsstring) : Prop := Forall (fun c => c < 128) s.

(** Full list of students provided (unaccented, English alphabet). *)
Definition STUDENTS : list jsstring :=
  [
    lit "Hoa Quang An"; lit "Pham Quynh Anh"; lit "Ha Thi Minh Anh";
    lit "Cao Nguyen Quynh Anh"; lit "Tran Nguyet Anh"; lit "Hoa Gia Binh";
    lit "Hoang Van Cong Chinh"; lit "Nguyen Manh Cuong"; lit "Tran Thi Dung";
    lit "Nguyen Thanh Dat"; lit "Nguyen Phuc Dien"; lit "Nguyen Trung Duc";
    lit "Nguyen Le Gia Han"; lit "Nguyen Phuong Hien"; lit "Nguyen Hoang Gia Huynh";
    lit "Duong Gia Hung"; lit "Dinh Van Hung"; lit "Le Dinh Khoi";
    lit "Nguyen Thi Ngoc Lan"; lit "Huynh Dang Khanh Linh"; lit "Pham Vu Thuy Linh";
    lit "Nguyen Bui Yen Linh"; lit "Dang Hoang Long"; lit "Nguyen Khanh Ly";
    lit "Tran Hoang Minh"; lit "Tran Nu Nguyet Nga"; lit "Tran Nhu Ngoc";
    lit "Le Thi Nhu Ngoc"; lit "Tran Nu Bao Ngoc"; lit "Tran Hoang Nguyen";
    lit "Nguyen Thao Nguyen"; lit "Phan Duy Nguyen"; lit "Nguyen Thi Thanh Nhan";
    lit "Bui Thien Nhan"; lit "Nguyen Ngoc Uyen Nhi"; lit "Vu Nguyen Tue Nhi";
    lit "Nguyen Hoang Tam Nhu"; lit "Le Kim Phat"; lit "Nguyen Ba Phi";
    lit "Dinh Xuan Hoang Phuc"; lit "Ta Pham Minh Phuc"; lit "Tran Huu Quang";
    lit "Nguyen Tien Sang"; lit "Tran Minh Thong"; lit "Vu Le Phuong Thuy";
    lit "Vo Bao Thuy"; lit "Nguyen Anh Thu"; lit "Le Trinh Anh Thu";
    lit "Pham Anh Thu"; lit "Nguyen Thuy Tien"; lit "Nguyen Phuong Uyen";
    lit "Vu Thi Ha Vy"
  ].

Section LoginScreen.

(** [String.prototype.toLowerCase], whose mapping of the characters
    outside ASCII is that of the Unicode tables of the engine. *)
Variable toLowerCase : jsstring -> jsstring.

Definition filteredStudents (searchTerm : jsstring) : list jsstring :=
  filter
    (fun student =>
       includes (toLowerCase searchTerm) (toLowerCase student) = true)
    STUDENTS.

(** A click on the [idx]-th button of the list: the name handed to
    [onLogin], if there is such a button. *)
Definition click_student (searchTerm : jsstring) (idx : nat)
    : option jsstring :=
  filteredStudents searchTerm !! idx.

End LoginScreen.

(** * Properties *)

(** ** The fence pattern and the cleaner *)

Ltac split_head :=
  repeat (cbn [rmatch] in *;
    match goal with
    | |- context [N.eqb ?a ?a] => rewrite (N.eqb_refl a)
    | H : ?a <> ?c |- context [N.eqb ?a ?c] =>
        rewrite (proj2 (N.eqb_neq a c) H)
    | |- context [match ?s with [] => _ | _ :: _ => _ end] =>
        is_var s; destruct s as [|? s]
    | |- context [N.eqb ?a ?c] =>
        is_var c; destruct (N.eqb_spec a c); [subst c|]
    end).

Lemma fence_match_some s rest :
  rmatch fence_regex s Some = Some rest ->
  (s = lit "```json" ++ newline :: rest)
  \/ (s = lit "```json" ++ rest /\ head rest <> Some newline)
  \/ (s = lit "```" ++ rest /\ strip_prefix (lit "json") rest = None).
Proof.
  unfold fence_regex, newline.
  change (lit "```json") with [96; 96; 96; 106; 115; 111; 110].
  change (lit "```") with [96; 96; 96].
  change (lit "json") with [106; 115; 111; 110].
  split_head; intros H; try discriminate; injection H as <-; cbn [app]; auto.
  all: try (right; left; split; [reflexivity|cbn; congruence]).
  all: right; right; (split; [reflexivity|]); cbn [strip_prefix].
  all: repeat match goal with
       | |- context [N.eqb ?a ?a] => rewrite (N.eqb_refl a)
       | H : ?a <> ?c |- context [N.eqb ?a ?c] =>
        rewrite (proj2 (N.eqb_neq a c) H)
       end; try reflexivity.
Qed.

Lemma fence_match_none s :
  rmatch fence_regex s Some = None -> strip_prefix (lit "```") s = None.
Proof.
  unfold fence_regex.
  change (lit "```") with [96; 96; 96].
  split_head; intros H; try discriminate; cbn [strip_prefix];
  repeat match goal with
       | |- context [N.eqb ?a ?a] => rewrite (N.eqb_refl a)
       | H : ?a <> ?c |- context [N.eqb ?a ?c] =>
        rewrite (proj2 (N.eqb_neq a c) H)
       end; try reflexivity.
Qed.

Lemma fence_match_shorter s rest :
  rmatch fence_regex s Some = Some rest -> (length rest < length s)%nat.
Proof.
  intros H. destruct (fence_match_some _ _ H) as [->|[[-> _]|[-> _]]];
    cbn [lit app length]; simpl; lia.
Qed.

Lemma remove_from_deletes fuel s :
  (length s <= fuel)%nat ->
  deletes_fences s (remove_from fence_regex fuel s).
Proof.
  revert s. induction fuel as [|fuel IH]; intros s Hlen.
  - destruct s; [constructor | simpl in Hlen; lia].
  - destruct s as [|c s]; [constructor|].
    cbn [remove_from].
    destruct (rmatch fence_regex (c :: s) Some) as [rest|] eqn:Hm.
    + pose proof (fence_match_shorter _ _ Hm) as Hlt.
      destruct (Nat.ltb_spec (length rest) (length (c :: s))); [|lia].
      assert (deletes_fences rest (remove_from fence_regex fuel rest)) as Hrest.
      { apply IH. simpl in *. lia. }
      destruct (fence_match_some _ _ Hm) as [->|[[-> Hnl]|[-> Hj]]].
      * by apply deletes_tagged_newline.
      * by apply deletes_tagged.
      * by apply deletes_bare.
    + apply deletes_keep.
      * by apply fence_match_none.
      * apply IH. simpl in Hlen. lia.
Qed.

Lemma remove_all_deletes s :
  deletes_fences s (remove_all fence_regex s).
Proof. by apply remove_from_deletes. Qed.

Lemma deletes_fences_head s out o :
  deletes_fences s out -> out = backtick :: o -> exists s', s = backtick :: s'.
Proof.
  induction 1; intros Ho; try discriminate.
  - eexists. reflexivity.
  - eexists. reflexivity.
  - eexists. reflexivity.
  - injection Ho as -> _. eauto.
Qed.

Lemma strip_prefix_app p s : strip_prefix p (p ++ s) = Some s.
Proof.
  induction p as [|c p IH]; [done|]. simpl. by rewrite N.eqb_refl.
Qed.

Lemma strip_prefix_some p s r : strip_prefix p s = Some r -> s = p ++ r.
Proof.
  revert s. induction p as [|c p IH]; intros [|d s]; simpl; try congruence.
  destruct (N.eqb_spec c d); [subst|discriminate].
  intros H. by rewrite (IH _ H).
Qed.

Lemma deletes_fences_clean s out :
  deletes_fences s out -> ~ occurs (lit "```") out.
Proof.
  induction 1 as [| | | |c rest out Hc Hd IH]; try assumption.
  - intros (a & b & Hab). destruct a; discriminate.
  - intros (a & b & Hab). destruct a as [|x a].
    + (* the kept unit would open a marker *)
      change (lit "```" ++ b) with (backtick :: backtick :: backtick :: b) in Hab.
      simpl in Hab. injection Hab as -> ->.
      destruct (deletes_fences_head _ _ _ Hd eq_refl) as [r1 ->].
      inversion Hd as [ | | | | c' rest' out' Hc' Hd' ]; subst.
      * discriminate Hc.
      * discriminate Hc.
      * discriminate Hc.
      * destruct (deletes_fences_head _ _ _ Hd' eq_refl) as [r2 ->].
        discriminate Hc.
    + injection Hab as -> ->. apply IH. by exists a, b.
Qed.

(** ** Trimming *)

Lemma trimStart_split s :
  exists pre, s = pre ++ trimStart s /\ all_white_space pre.
Proof.
  induction s as [|c s (pre & Hs & Hpre)].
  - exists []. split; [done|constructor].
  - cbn [trimStart]. destruct (is_white_space c) eqn:Hc.
    + exists (c :: pre). split; [by rewrite Hs at 1|by constructor].
    + exists []. split; [done|constructor].
Qed.

Lemma trimStart_head s c r :
  trimStart s = c :: r -> is_white_space c = false.
Proof.
  induction s as [|d s IH]; [done|]. cbn [trimStart].
  destruct (is_white_space d) eqn:Hd; [done|]. by intros [= <- _].
Qed.

Lemma trimEnd_split s :
  exists post, s = trimEnd s ++ post /\ all_white_space post.
Proof.
  unfold trimEnd. destruct (trimStart_split (reverse s)) as (pre & Hs & Hpre).
  exists (reverse pre). split.
  - rewrite <- reverse_app, <- Hs. by rewrite reverse_involutive.
  - by apply Forall_reverse.
Qed.

Lemma trimEnd_last s c r :
  trimEnd s = r ++ [c] -> is_white_space c = false.
Proof.
  unfold trimEnd. intros H. apply (f_equal reverse) in H.
  rewrite reverse_involutive, reverse_snoc in H.
  by apply trimStart_head in H.
Qed.

Lemma trim_split s :
  exists pre post,
    s = pre ++ trim s ++ post /\ all_white_space pre /\ all_white_space post.
Proof.
  unfold trim. destruct (trimStart_split s) as (pre & Hs & Hpre).
  destruct (trimEnd_split (trimStart s)) as (post & Ht & Hpost).
  exists pre, post. by rewrite <- Ht.
Qed.

Lemma trim_head s c r : trim s = c :: r -> is_white_space c = false.
Proof.
  unfold trim. intros H.
  destruct (trimEnd_split (trimStart s)) as (post & Ht & _).
  rewrite H in Ht. by apply trimStart_head in Ht.
Qed.

Lemma trim_last s c r : trim s = r ++ [c] -> is_white_space c = false.
Proof. apply trimEnd_last. Qed.

Lemma occurs_inside p pre s post :
  occurs p s -> occurs p (pre ++ s ++ post).
Proof.
  intros (a & b & ->). exists (pre ++ a), (b ++ post).
  by rewrite <- !app_assoc.
Qed.

Lemma occurs_longer p q s : occurs (p ++ q) s -> occurs p s.
Proof.
  intros (a & b & ->). exists a, (q ++ b). by rewrite <- app_assoc.
Qed.

(** C8: for every input, [cleanJsonString] deletes every occurrence of
    the tagged fence marker (with the line break that may follow it) and
    of the bare marker, wherever it stands, and trims white space from
    both ends of what is left.  The markers inside a JSON string value are
    deleted like any other: the stripping is not limited to the markers
    around the payload. *)
Theorem cleanJsonString_deletes_every_fence (str : jsstring) :
  (exists body pre post,
      deletes_fences str body /\
      body = pre ++ cleanJsonString str ++ post /\
      all_white_space pre /\ all_white_space post) /\
  ~ occurs (lit "```") (cleanJsonString str) /\
  ~ occurs (lit "```json") (cleanJsonString str) /\
  (forall c r, cleanJsonString str = c :: r -> is_white_space c = false) /\
  (forall c r, cleanJsonString str = r ++ [c] -> is_white_space c = false) /\
  cleanJsonString (tpl "{~note~:~a ``` b ```json c~}")
    = tpl "{~note~:~a  b  c~}" /\
  cleanJsonString (tpl " ```json{~a~:~```json" ++ newline :: tpl "x~}``` ")
    = tpl "{~a~:~x~}".
Proof.
  pose proof (remove_all_deletes str) as Hdel.
  destruct (trim_split (remove_all fence_regex str))
    as (pre & post & Hsplit & Hpre & Hpost).
  assert (~ occurs (lit "```") (cleanJsonString str)) as Hclean.
  { intros Hocc. apply (deletes_fences_clean _ _ Hdel).
    rewrite Hsplit. by apply occurs_inside. }
  split; [|split; [|split; [|split; [|split; [|split]]]]].
  - by exists (remove_all fence_regex str), pre, post.
  - done.
  - intros Hocc. apply Hclean.
    by apply (occurs_longer (lit "```") (lit "json")).
  - apply trim_head.
  - apply trim_last.
  - by vm_compute.
  - by vm_compute.
Qed.

(** C6: the response parser, [cleanJsonString] followed by [JSON.parse]:
    a fenced score parses to the object with the one member [score] equal
    to 7, the same text without fences parses to the same object, and text
    that is not JSON makes [JSON.parse] throw a syntax error. *)
Theorem response_parser_examples {Remote} (engine : jsstring -> jsstring)
    (w : World Remote) :
  let score7 := JObject [(lit "score", JNumber (Number false 7 0))] in
  let fenced :=
    lit "```json" ++ newline :: tpl "{~score~:7}" ++ newline :: lit "```" in
  let parser raw :=
    JSON_parse engine (cleanJsonString (text_or_empty_object (Some raw))) in
  parser fenced w = (Returned score7, w) /\
  parser (tpl "{~score~:7}") w = (Returned score7, w) /\
  parser (lit "not json") w
    = (Thrown (mkError SyntaxError (engine (lit "not json"))), w).
Proof. by vm_compute. Qed.

(** ** The retry loop *)

Section RetryLoop.
Context {Remote T : Type}.
Variable typeErrorMessage : jsstring -> jsstring.
Variable operationName : jsstring.
Variable operationFn : jsstring -> GoogleGenAI -> Async Remote T.
Variable key : jsstring.

Local Abbreviation loop :=
  (retry_loop typeErrorMessage operationName operationFn key).
Local Abbreviation fail := (attempts_fail operationName operationFn key).

Lemma retry_loop_success model rest last w v w2 :
  operationFn model (mkClient key) (log_attempt operationName model w)
    = (Returned v, w2) ->
  loop (model :: rest) last w = (Returned v, w2, [model]).
Proof. intros H. cbn [retry_loop]. by rewrite H. Qed.

Lemma retry_loop_failure model rest last w (error : Error) w2 :
  operationFn model (mkClient key) (log_attempt operationName model w)
    = (Thrown error, w2) ->
  loop (model :: rest) last w =
    let '(res, w4, called) :=
      loop rest (Some error) (log_failed operationName model error w2) in
    (res, w4, model :: called).
Proof. intros H. cbn [retry_loop]. by rewrite H. Qed.

(** A rejection with [undefined] or [null] ends the call at once. *)
Lemma retry_loop_nullish model rest last w (x : Exception) w2 :
  operationFn model (mkClient key) (log_attempt operationName model w)
    = (Thrown x, w2) ->
  nullish x ->
  loop (model :: rest) last w =
    (Thrown (mkError TypeError (typeErrorMessage (lit "message"))), w2,
     [model]).
Proof. intros H [-> | ->]; cbn [retry_loop]; by rewrite H. Qed.

Lemma retry_loop_after_failures pre rest w last w1 last1 :
  fail pre w last w1 last1 ->
  loop (pre ++ rest) last w =
    let '(res, w', called) := loop rest last1 w1 in
    (res, w', pre ++ called).
Proof.
  induction 1 as [w last|model pre w last error w2 w' last' Hop _ IH].
  - cbn [app]. by destruct (loop rest last w) as [[??]?].
  - cbn [app]. rewrite (retry_loop_failure _ _ _ _ _ _ Hop), IH.
    by destruct (loop rest last' w') as [[??]?].
Qed.

Lemma attempts_fail_last models w last w' last' :
  fail models w last w' last' -> models <> [] ->
  exists error, last' = Some error.
Proof.
  induction 1 as [|model rest w last error w2 w' last' Hop Hrest IH];
    [done|intros _].
  destruct rest as [|m rest]; [|by apply IH].
  inversion Hrest; subst. eauto.
Qed.

(** After a run of failures the console ends with the warning for the
    last model, which carries the label and the last message. *)
Lemma attempts_fail_last_warning models w last w' last' :
  fail models w last w' last' -> models <> [] ->
  exists model (error : Error) w2,
    list.last models = Some model /\ last' = Some error /\
    w' = log_failed operationName model error w2.
Proof.
  induction 1 as [|model rest w last error w2 w' last' Hop Hrest IH];
    [done|intros _].
  destruct rest as [|m rest].
  - inversion Hrest; subst. by exists model, error, w2.
  - destruct IH as (model' & error' & w2' & Hlast & -> & ->); [done|].
    by exists model', error', w2'.
Qed.

Lemma retry_loop_called_prefix models last w :
  (loop models last w).2 `prefix_of` models.
Proof.
  revert last w. induction models as [|model rest IH]; intros last w.
  - done.
  - cbn [retry_loop].
    destruct (operationFn _ _ _) as [[v|[error| |]] w2]; cbn.
    + apply prefix_cons, prefix_nil.
    + specialize (IH (Some error) (log_failed operationName model error w2)).
      destruct (loop rest _ _) as [[res w4] called]. cbn in *.
      by apply prefix_cons.
    + apply prefix_cons, prefix_nil.
    + apply prefix_cons, prefix_nil.
Qed.

(** A result comes from the first model on which the operation returns,
    every model before it having failed. *)
Lemma retry_loop_returned models last w v w' called :
  loop models last w = (Returned v, w', called) ->
  exists pre model post w1 last1,
    models = pre ++ model :: post /\ called = pre ++ [model] /\
    fail pre w last w1 last1 /\
    operationFn model (mkClient key) (log_attempt operationName model w1)
      = (Returned v, w').
Proof.
  revert last w called.
  induction models as [|model rest IH]; intros last w called; [done|].
  cbn [retry_loop].
  destruct (operationFn _ _ _) as [[r|[error| |]] w2] eqn:Hop; [| |done..].
  - intros [= -> -> <-]. exists [], model, rest, w, last.
    repeat split; [constructor|done].
  - destruct (loop rest _ _) as [[res w4] called'] eqn:Hloop.
    intros [= -> -> <-].
    destruct (IH _ _ _ Hloop) as (pre & m & post & w1 & last1 & -> & -> & Hf & Hm).
    exists (model :: pre), m, post, w1, last1. repeat split; [|done].
    econstructor; eauto.
Qed.

(** The loop throws either when every model failed with an error object,
    and then it throws the aggregated error, or when an attempt was
    rejected with [undefined] or [null], and then it throws the type
    error of reading its message. *)
Lemma retry_loop_thrown models last w (thrown : Exception) w' called :
  loop models last w = (Thrown thrown, w', called) ->
  (exists last',
      called = models /\ fail models w last w' last' /\
      thrown = newError (exhausted_message last')) \/
  (exists pre model post w1 last1 (x : Exception),
      models = pre ++ model :: post /\ called = pre ++ [model] /\
      fail pre w last w1 last1 /\
      operationFn model (mkClient key) (log_attempt operationName model w1)
        = (Thrown x, w') /\
      nullish x /\
      thrown = mkError TypeError (typeErrorMessage (lit "message"))).
Proof.
  revert last w called.
  induction models as [|model rest IH]; intros last w called.
  - intros [= <- <- <-]. left. exists last. repeat split. constructor.
  - cbn [retry_loop].
    destruct (operationFn _ _ _) as [[r|[error| |]] w2] eqn:Hop; [done| | |].
    + destruct (loop rest _ _) as [[res w4] called'] eqn:Hloop.
      intros [= -> -> <-].
      destruct (IH _ _ _ Hloop)
        as [(last' & -> & Hf & ->)
           |(pre & m & post & w1 & last1 & x & -> & -> & Hf & Hm & Hx & ->)].
      * left. exists last'. repeat split. econstructor; eauto.
      * right. exists (model :: pre), m, post, w1, last1, x.
        repeat split; try done. econstructor; eauto.
    + intros [= <- <- <-]. right.
      exists [], model, rest, w, last, UndefinedValue.
      repeat split; try done; [constructor|by left].
    + intros [= <- <- <-]. right.
      exists [], model, rest, w, last, NullValue.
      repeat split; try done; [constructor|by right].
Qed.

(** With an operation that is never rejected with [undefined] or [null]
    the loop throws only the aggregated error. *)
Lemma retry_loop_thrown_errors models last w (thrown : Exception) w' called :
  rejects_with_error_objects operationFn ->
  loop models last w = (Thrown thrown, w', called) ->
  exists last',
    called = models /\ fail models w last w' last' /\
    thrown = newError (exhausted_message last').
Proof.
  intros Hop Hloop.
  destruct (retry_loop_thrown _ _ _ _ _ _ Hloop)
    as [H|(pre & m & post & w1 & last1 & x & _ & _ & _ & Hm & Hx & _)];
    [done|].
  destruct (Hop _ _ _ _ _ Hm) as [e ->]. by destruct Hx.
Qed.

Lemma retry_loop_all_fail models w last w' last' :
  fail models w last w' last' ->
  loop models last w = (Thrown (newError (exhausted_message last')), w', models).
Proof.
  intros Hf. pose proof (retry_loop_after_failures _ [] _ _ _ _ Hf) as H.
  rewrite app_nil_r in H. rewrite H. cbn. by rewrite app_nil_r.
Qed.

End RetryLoop.

(** ** The candidate chain *)

Lemma foldl_set_add_NoDup (acc items : list jsstring) :
  NoDup acc -> NoDup (foldl set_add acc items).
Proof.
  revert acc. induction items as [|x items IH]; intros acc Hacc; [done|].
  cbn [foldl]. apply IH. unfold set_add. case_bool_decide; [done|].
  apply NoDup_app. split; [done|]. split.
  - intros y Hy ->%list_elem_of_singleton. done.
  - apply NoDup_singleton.
Qed.

Lemma foldl_set_add_prefix (acc items : list jsstring) :
  acc `prefix_of` foldl set_add acc items.
Proof.
  revert acc. induction items as [|x items IH]; intros acc; [done|].
  cbn [foldl]. etrans; [|apply IH]. unfold set_add.
  case_bool_decide; [done|]. by apply prefix_app_r.
Qed.

Lemma foldl_set_add_elem (acc items : list jsstring) x :
  x ∈ foldl set_add acc items <-> x ∈ acc \/ x ∈ items.
Proof.
  revert acc. induction items as [|y items IH]; intros acc.
  - cbn. set_solver.
  - cbn [foldl]. rewrite IH. unfold set_add. case_bool_decide; set_solver.
Qed.

Lemma array_from_set_NoDup items : NoDup (array_from_set items).
Proof. apply foldl_set_add_NoDup, NoDup_nil_2. Qed.

Lemma array_from_set_elem items x : x ∈ array_from_set items <-> x ∈ items.
Proof. unfold array_from_set. rewrite foldl_set_add_elem. set_solver. Qed.

Lemma array_from_set_head x items : head (array_from_set (x :: items)) = Some x.
Proof.
  unfold array_from_set. cbn [foldl].
  destruct (foldl_set_add_prefix (set_add [] x) items) as [k ->].
  done.
Qed.

(** Later copies of the first item do not matter: the order is that of
    first occurrence. *)
Lemma foldl_set_add_seen acc items x :
  x ∈ acc ->
  foldl set_add acc items = foldl set_add acc (filter (fun y => y <> x) items).
Proof.
  revert acc. induction items as [|y items IH]; intros acc Hx; [done|].
  destruct (decide (y = x)) as [->|Hne].
  - rewrite filter_cons_False by (intros ?; done). cbn [foldl].
    unfold set_add at 2. rewrite bool_decide_eq_true_2 by done. by apply IH.
  - rewrite filter_cons_True by done. cbn [foldl]. apply IH.
    unfold set_add. case_bool_decide; set_solver.
Qed.

Lemma foldl_set_add_cons x acc items :
  x ∉ items ->
  foldl set_add (x :: acc) items = x :: foldl set_add acc items.
Proof.
  revert acc. induction items as [|y items IH]; intros acc Hx; [done|].
  apply not_elem_of_cons in Hx as [Hne Hx]. cbn [foldl].
  assert (set_add (x :: acc) y = x :: set_add acc y) as ->.
  { unfold set_add. repeat case_bool_decide; set_solver. }
  by apply IH.
Qed.

Lemma array_from_set_first x items :
  array_from_set (x :: items)
    = x :: array_from_set (filter (fun y => y <> x) items).
Proof.
  unfold array_from_set. cbn [foldl]. unfold set_add at 2.
  rewrite bool_decide_eq_false_2 by set_solver. cbn [app].
  rewrite (foldl_set_add_seen [x] items x) by set_solver.
  apply foldl_set_add_cons. rewrite list_elem_of_filter. tauto.
Qed.

Lemma supported_some x :
  existsb (fun m => eqb (model_id m) x) SUPPORTED_MODELS = true
  <-> x ∈ model_id <$> SUPPORTED_MODELS.
Proof.
  unfold SUPPORTED_MODELS, eqb. cbn [existsb fmap list_fmap model_id].
  rewrite !orb_true_iff, !bool_decide_eq_true, !elem_of_cons, elem_of_nil.
  intuition congruence.
Qed.

Lemma currentModel_saved {Remote} (w : World Remote) model :
  localStorage_getItem (lit "lingua_selected_model") w = Some model ->
  model ∈ model_id <$> SUPPORTED_MODELS ->
  currentModel w = model.
Proof.
  intros Hsaved Hin. unfold currentModel. rewrite Hsaved.
  unfold localStorage_getItem in Hsaved.
  destruct (window w); [|done].
  apply supported_some in Hin as Hex.
  destruct model as [|c model]; [by vm_compute in Hin; set_solver|].
  by rewrite Hex.
Qed.

Lemma currentModel_default {Remote} (w : World Remote) :
  (forall model,
      localStorage_getItem (lit "lingua_selected_model") w = Some model ->
      model ∉ model_id <$> SUPPORTED_MODELS) ->
  currentModel w = lit "gemini-3-flash-preview".
Proof.
  intros Hnot. unfold currentModel.
  destruct (window w); [|done].
  destruct (localStorage_getItem _ w) as [[|c saved]|]; [done| |done].
  destruct (existsb _ _) eqn:Hex; [|done].
  apply supported_some in Hex. by destruct (Hnot _ eq_refl).
Qed.

(** C4: whatever model preference is stored, the candidate chain has no
    duplicates; it holds the starting model and the fallback models and
    nothing else; its first element is the stored preference when that is
    a supported model and the default model otherwise.  With Gemini 2.5
    Flash stored, the chain is Gemini 2.5 Flash, Gemini 3 Flash, Gemini 3
    Pro: the later copy of the preferred model is dropped. *)
Theorem candidate_chain {Remote} (w : World Remote) :
  let saved := localStorage_getItem (lit "lingua_selected_model") w in
  NoDup (uniqueFallbacks w) /\
  (forall model,
      model ∈ uniqueFallbacks w
      <-> model = currentModel w \/ model ∈ FALLBACK_ORDER) /\
  (forall model,
      saved = Some model -> model ∈ model_id <$> SUPPORTED_MODELS ->
      head (uniqueFallbacks w) = Some model) /\
  ((forall model,
      saved = Some model -> model ∉ model_id <$> SUPPORTED_MODELS) ->
   head (uniqueFallbacks w) = Some (lit "gemini-3-flash-preview")) /\
  (saved = Some (lit "gemini-2.5-flash") ->
   FALLBACK_ORDER = [ lit "gemini-3-flash-preview";
                      lit "gemini-3-pro-preview"; lit "gemini-2.5-flash" ] /\
   uniqueFallbacks w = [ lit "gemini-2.5-flash";
                         lit "gemini-3-flash-preview";
                         lit "gemini-3-pro-preview" ]).
Proof.
  cbn zeta. unfold uniqueFallbacks.
  split; [apply array_from_set_NoDup|].
  split; [intros model; rewrite array_from_set_elem; set_solver|].
  split; [|split].
  - intros model Hsaved Hin.
    by rewrite array_from_set_head, (currentModel_saved _ _ Hsaved Hin).
  - intros Hnot. by rewrite array_from_set_head, (currentModel_default _ Hnot).
  - intros Hsaved. split; [done|].
    rewrite (currentModel_saved _ _ Hsaved); [by vm_compute|].
    by vm_compute; set_solver.
Qed.

Lemma candidate_chain_witness :
  localStorage_getItem (lit "lingua_selected_model") Demo.browser_25
    = Some (lit "gemini-2.5-flash") /\
  lit "gemini-2.5-flash" ∈ model_id <$> SUPPORTED_MODELS /\
  head (uniqueFallbacks Demo.browser_25) = Some (lit "gemini-2.5-flash") /\
  uniqueFallbacks Demo.browser_25
    = [ lit "gemini-2.5-flash"; lit "gemini-3-flash-preview";
        lit "gemini-3-pro-preview" ].
Proof.
  assert (localStorage_getItem (lit "lingua_selected_model") Demo.browser_25
          = Some (lit "gemini-2.5-flash")) as Hsaved by (vm_compute; reflexivity).
  assert (lit "gemini-2.5-flash" ∈ model_id <$> SUPPORTED_MODELS) as Hin.
  { cbn. do 2 apply list_elem_of_further. apply list_elem_of_here. }
  destruct (candidate_chain Demo.browser_25) as (_ & _ & Hhead & _ & Hchain).
  split; [exact Hsaved|]. split; [exact Hin|].
  split; [exact (Hhead _ Hsaved Hin)|].
  exact (proj2 (Hchain Hsaved)).
Defined.

(** ** Substrings *)

Lemma starts_with_true p s : starts_with p s = true <-> exists b, s = p ++ b.
Proof.
  unfold starts_with. split.
  - destruct (strip_prefix p s) as [r|] eqn:H; [|done].
    intros _. exists r. by apply strip_prefix_some.
  - intros [b ->]. by rewrite strip_prefix_app.
Qed.

Lemma includes_occurs p s : includes p s = true <-> occurs p s.
Proof.
  induction s as [|c s IH].
  - cbn [includes]. rewrite orb_false_r, starts_with_true. split.
    + intros [b Hb]. by exists [], b.
    + intros (a & b & Hab). destruct a; [by exists b|done].
  - cbn [includes]. rewrite orb_true_iff, starts_with_true, IH. split.
    + intros [[b Hb]|(a & b & ->)]; [by exists [], b|by exists (c :: a), b].
    + intros (a & b & Hab). destruct a as [|x a].
      * left. by exists b.
      * right. injection Hab as _ ->. by exists a, b.
Qed.

(** ** The wrapper *)

Lemma uniqueFallbacks_NoDup {Remote} (w : World Remote) :
  NoDup (uniqueFallbacks w).
Proof. apply array_from_set_NoDup. Qed.

Lemma uniqueFallbacks_nonempty {Remote} (w : World Remote) :
  uniqueFallbacks w <> [].
Proof.
  intros H. pose proof (array_from_set_head (currentModel w) FALLBACK_ORDER) as Hh.
  unfold uniqueFallbacks in H. by rewrite H in Hh.
Qed.

Section Wrapper.
Context {Remote T : Type}.
Variable typeErrorMessage : jsstring -> jsstring.

Local Abbreviation call := (callAIWithRetry typeErrorMessage).
Local Abbreviation tried := (attempts typeErrorMessage).

Lemma callAIWithRetry_traced_with_key name
    (op : jsstring -> GoogleGenAI -> Async Remote T) (w : World Remote) :
  getApiKey w <> [] ->
  callAIWithRetry_traced typeErrorMessage name op w
    = retry_loop typeErrorMessage name op (getApiKey w) (uniqueFallbacks w)
        None w.
Proof. unfold callAIWithRetry_traced. by destruct (getApiKey w). Qed.

Lemma callAIWithRetry_traced_without_key name
    (op : jsstring -> GoogleGenAI -> Async Remote T) (w : World Remote) :
  getApiKey w = [] ->
  callAIWithRetry_traced typeErrorMessage name op w
    = (Thrown (newError missing_key_message), w, []).
Proof. unfold callAIWithRetry_traced. by intros ->. Qed.

Lemma attempts_prefix name
    (op : jsstring -> GoogleGenAI -> Async Remote T) (w : World Remote) :
  tried name op w `prefix_of` uniqueFallbacks w.
Proof.
  unfold attempts. destruct (getApiKey w) as [|c k] eqn:Hkey.
  - rewrite callAIWithRetry_traced_without_key by done. apply prefix_nil.
  - rewrite callAIWithRetry_traced_with_key by (by rewrite Hkey).
    apply retry_loop_called_prefix.
Qed.

Lemma attempts_NoDup name
    (op : jsstring -> GoogleGenAI -> Async Remote T) (w : World Remote) :
  NoDup (tried name op w).
Proof.
  destruct (attempts_prefix name op w) as [k Hk].
  pose proof (uniqueFallbacks_NoDup w) as Hnd. rewrite Hk in Hnd.
  by apply NoDup_app in Hnd as [? _].
Qed.

(** What the wrapper throws: its missing-key error; or, every candidate
    having failed with an error object, its aggregated error; or, an
    attempt having been rejected with [undefined] or [null], the type
    error of reading the message of that, with no further attempt. *)
Lemma callAIWithRetry_thrown name
    (op : jsstring -> GoogleGenAI -> Async Remote T) (w w' : World Remote)
    (thrown : Exception) :
  call name op w = (Thrown thrown, w') ->
  (getApiKey w = [] /\ thrown = newError missing_key_message /\ w' = w) \/
  (getApiKey w <> [] /\ tried name op w = uniqueFallbacks w /\
   exists error,
     attempts_fail name op (getApiKey w) (uniqueFallbacks w) w None w'
       (Some error) /\
     thrown = newError (exhausted_message (Some error))) \/
  (getApiKey w <> [] /\
   exists pre model post w1 last1 (x : Exception),
     uniqueFallbacks w = pre ++ model :: post /\
     tried name op w = pre ++ [model] /\
     attempts_fail name op (getApiKey w) pre w None w1 last1 /\
     op model (mkClient (getApiKey w)) (log_attempt name model w1)
       = (Thrown x, w') /\
     nullish x /\
     thrown = mkError TypeError (typeErrorMessage (lit "message"))).
Proof.
  unfold callAIWithRetry, attempts. destruct (getApiKey w) as [|c k] eqn:Hkey.
  - rewrite callAIWithRetry_traced_without_key by done. cbn.
    intros [= <- <-]. by left.
  - rewrite callAIWithRetry_traced_with_key by (by rewrite Hkey).
    rewrite Hkey.
    destruct (retry_loop _ _ _ _ _ _ _) as [[res w4] called] eqn:Hloop. cbn.
    intros [= -> ->]. right.
    destruct (retry_loop_thrown _ _ _ _ _ _ _ _ _ _ Hloop)
      as [(last' & -> & Hf & ->)|H].
    + left. split; [done|]. split; [done|].
      destruct (attempts_fail_last _ _ _ _ _ _ _ _ Hf
                  (uniqueFallbacks_nonempty w)) as [error ->].
      by exists error.
    + right. split; [done|exact H].
Qed.

(** Whatever the wrapper throws is an error object. *)
Lemma callAIWithRetry_thrown_object name
    (op : jsstring -> GoogleGenAI -> Async Remote T) (w w' : World Remote)
    (thrown : Exception) :
  call name op w = (Thrown thrown, w') ->
  exists e : Error, thrown = ErrorObject e.
Proof.
  intros H. destruct (callAIWithRetry_thrown _ _ _ _ _ H)
    as [(_ & -> & _)|[(_ & _ & error & _ & ->)
       |(_ & pre & m & post & w1 & last1 & x & _ & _ & _ & _ & _ & ->)]];
    eauto.
Qed.

(** With an operation that is never rejected with [undefined] or [null],
    an error of an attempt never leaves the loop: the wrapper throws one
    of its own two errors. *)
Lemma callAIWithRetry_thrown_errors name
    (op : jsstring -> GoogleGenAI -> Async Remote T) (w w' : World Remote)
    (thrown : Exception) :
  rejects_with_error_objects op ->
  call name op w = (Thrown thrown, w') ->
  (getApiKey w = [] /\ thrown = newError missing_key_message /\ w' = w) \/
  (getApiKey w <> [] /\ tried name op w = uniqueFallbacks w /\
   exists error,
     attempts_fail name op (getApiKey w) (uniqueFallbacks w) w None w'
       (Some error) /\
     thrown = newError (exhausted_message (Some error))).
Proof.
  intros Hop H. destruct (callAIWithRetry_thrown _ _ _ _ _ H)
    as [?|[?|(_ & pre & m & post & w1 & last1 & x & _ & _ & _ & Hm & Hx & _)]];
    [by left|by right|].
  destruct (Hop _ _ _ _ _ Hm) as [e ->]. by destruct Hx.
Qed.

Lemma callAIWithRetry_returned name
    (op : jsstring -> GoogleGenAI -> Async Remote T) (w w' : World Remote) v :
  call name op w = (Returned v, w') ->
  exists pre model post w1 last1,
    uniqueFallbacks w = pre ++ model :: post /\
    tried name op w = pre ++ [model] /\
    attempts_fail name op (getApiKey w) pre w None w1 last1 /\
    op model (mkClient (getApiKey w)) (log_attempt name model w1)
      = (Returned v, w').
Proof.
  unfold callAIWithRetry, attempts.
  destruct (getApiKey w) as [|c k] eqn:Hkey.
  - by rewrite callAIWithRetry_traced_without_key.
  - rewrite callAIWithRetry_traced_with_key by (by rewrite Hkey).
    rewrite Hkey.
    destruct (retry_loop _ _ _ _ _ _ _) as [[res w4] called] eqn:Hloop.
    cbn [fst snd]. intros [= -> ->]. by apply retry_loop_returned in Hloop.
Qed.

(** Failures on some candidates and then a returned value. *)
Lemma callAIWithRetry_success_after name
    (op : jsstring -> GoogleGenAI -> Async Remote T) (w : World Remote)
    pre model post w1 last1 v w2 :
  getApiKey w <> [] ->
  uniqueFallbacks w = pre ++ model :: post ->
  attempts_fail name op (getApiKey w) pre w None w1 last1 ->
  op model (mkClient (getApiKey w)) (log_attempt name model w1)
    = (Returned v, w2) ->
  call name op w = (Returned v, w2) /\ tried name op w = pre ++ [model].
Proof.
  intros Hkey Hchain Hfail Hop.
  unfold callAIWithRetry, attempts.
  rewrite callAIWithRetry_traced_with_key by done. rewrite Hchain.
  rewrite (retry_loop_after_failures _ _ _ _ _ _ _ _ _ _ Hfail).
  by rewrite (retry_loop_success _ _ _ _ _ _ _ _ _ _ Hop).
Qed.

Lemma callAIWithRetry_all_fail name
    (op : jsstring -> GoogleGenAI -> Async Remote T) (w w' : World Remote)
    last' :
  getApiKey w <> [] ->
  attempts_fail name op (getApiKey w) (uniqueFallbacks w) w None w' last' ->
  exists error,
    last' = Some error /\
    call name op w
      = (Thrown (newError (exhausted_message (Some error))), w') /\
    tried name op w = uniqueFallbacks w.
Proof.
  intros Hkey Hfail.
  destruct (attempts_fail_last _ _ _ _ _ _ _ _ Hfail (uniqueFallbacks_nonempty w))
    as [error ->].
  exists error. split; [done|].
  unfold callAIWithRetry, attempts.
  rewrite callAIWithRetry_traced_with_key by done.
  by rewrite (retry_loop_all_fail _ _ _ _ _ _ _ _ _ Hfail).
Qed.

End Wrapper.

(** *** The label is not an ingredient of the outcome *)

Section Label.
Context {Remote T : Type}.
Variable typeErrorMessage : jsstring -> jsstring.
Variable operationFn : jsstring -> GoogleGenAI -> Async Remote T.
Hypothesis operation_ignores_console : ignores_console operationFn.

Lemma same_but_console_write lvl args lvl' args' (w w' : World Remote) :
  same_but_console w w' ->
  same_but_console (console_write lvl args w).2 (console_write lvl' args' w').2.
Proof. by intros (? & ? & ? & ?). Qed.

Lemma same_but_console_settings (w w' : World Remote) :
  same_but_console w w' ->
  getApiKey w = getApiKey w' /\ uniqueFallbacks w = uniqueFallbacks w'.
Proof.
  intros (Hwin & Hk1 & Hk2 & _).
  unfold getApiKey, uniqueFallbacks, currentModel, localStorage_getItem.
  by rewrite Hwin, Hk1, Hk2.
Qed.

Lemma retry_loop_label_free name name' key models last (w w' : World Remote) :
  same_but_console w w' ->
  let r := retry_loop typeErrorMessage name operationFn key models last w in
  let r' := retry_loop typeErrorMessage name' operationFn key models last w' in
  r.1.1 = r'.1.1 /\ r.2 = r'.2 /\ same_but_console r.1.2 r'.1.2.
Proof using operation_ignores_console.
  cbn zeta. revert last w w'.
  induction models as [|model rest IH]; intros last w w' Hw; [done|].
  cbn [retry_loop].
  destruct (operation_ignores_console model (mkClient key)
              (log_attempt name model w) (log_attempt name' model w'))
    as [Hout Hworld]; [by apply same_but_console_write|].
  destruct (operationFn model _ (log_attempt name model w))
    as [[v|[error| |]] w2];
    destruct (operationFn model _ (log_attempt name' model w'))
      as [[v'|[error'| |]] w2']; cbn in Hout, Hworld; try done.
  injection Hout as <-.
  specialize (IH (Some error) (log_failed name model error w2)
                (log_failed name' model error w2')
                (same_but_console_write _ _ _ _ _ _ Hworld)).
  unfold log_failed, console_write in IH. cbn in IH.
  destruct (retry_loop _ name _ _ rest _ _) as [[res w4] called].
  destruct (retry_loop _ name' _ _ rest _ _) as [[res' w4'] called'].
  cbn in *. destruct IH as (-> & -> & ?). done.
Qed.

Lemma callAIWithRetry_label_free name name' (w : World Remote) :
  (callAIWithRetry typeErrorMessage name operationFn w).1
    = (callAIWithRetry typeErrorMessage name' operationFn w).1 /\
  attempts typeErrorMessage name operationFn w
    = attempts typeErrorMessage name' operationFn w.
Proof using operation_ignores_console.
  unfold callAIWithRetry, attempts, callAIWithRetry_traced.
  destruct (getApiKey w) as [|c k]; [done|].
  destruct (retry_loop_label_free name name' (c :: k) (uniqueFallbacks w)
              None w w) as (H1 & H2 & _); [done|].
  done.
Qed.

End Label.




(** The console after a call in which the first candidate fails and the
    second succeeds: one line per attempt and one warning for the failure,
    in step with the list of calls. *)
Example flaky_console :
  console
    (callAIWithRetry Demo.engine_message (lit "demo") Demo.flaky
       Demo.browser).2
    = [ (LogLevel, [lit "[demo] Attempting with model: gemini-3-flash-preview"]);
        (WarnLevel, [ lit "[demo] Failed with model gemini-3-flash-preview:";
                      lit "overloaded" ]);
        (LogLevel, [lit "[demo] Attempting with model: gemini-3-pro-preview"]) ].
Proof. by vm_compute. Qed.

(** C2, as the code has it: when the operation fails, with an error
    object, on every candidate, the wrapper has called it exactly once per
    candidate, as many times as the chain is long, and throws one error
    whose message is the fixed overload text with the message of the last
    failed attempt inside it.  The operation label goes to the console:
    the last line there is the warning for the last candidate, which
    carries the label and that message.  The label is not part of the
    error: for an operation that does not read the console, another label
    gives the same outcome after the same calls.  And whenever the
    wrapper, holding a key, throws, either all that happened or an attempt
    was rejected with [undefined] or [null]. *)
Theorem callAIWithRetry_exhausted {Remote T}
    (typeErrorMessage : jsstring -> jsstring) (operationName : jsstring)
    (operationFn : jsstring -> GoogleGenAI -> Async Remote T)
    (w : World Remote) :
  let chain := uniqueFallbacks w in
  let key := getApiKey w in
  let called := attempts typeErrorMessage operationName operationFn w in
  let aggregated (error : Error) :=
    newError
      (lit "System overloaded or Model Error. Please try again later. (Last error: "
       ++ message error ++ lit ")") in
  (forall w' last',
      key <> [] ->
      attempts_fail operationName operationFn key chain w None w' last' ->
      exists model error,
        last chain = Some model /\ last' = Some error /\
        callAIWithRetry typeErrorMessage operationName operationFn w
          = (Thrown (aggregated error), w') /\
        called = chain /\ length called = length chain /\
        occurs (message error) (message (aggregated error)) /\
        last (console w')
          = Some (WarnLevel,
                  [ lit "[" ++ operationName ++ lit "] Failed with model "
                      ++ model ++ lit ":";
                    message error ])) /\
  (ignores_console operationFn ->
   forall label,
     (callAIWithRetry typeErrorMessage label operationFn w).1
       = (callAIWithRetry typeErrorMessage operationName operationFn w).1 /\
     attempts typeErrorMessage label operationFn w = called) /\
  (forall (thrown : Exception) w',
      key <> [] ->
      callAIWithRetry typeErrorMessage operationName operationFn w
        = (Thrown thrown, w') ->
      (called = chain /\
       exists error,
         attempts_fail operationName operationFn key chain w None w'
           (Some error) /\
         thrown = aggregated error) \/
      (exists model w1 (x : Exception),
         last called = Some model /\
         operationFn model (mkClient key) w1 = (Thrown x, w') /\
         nullish x)).
Proof.
  cbn zeta. split; [|split].
  - intros w' last' Hkey Hfail.
    destruct (callAIWithRetry_all_fail typeErrorMessage _ _ _ _ _ Hkey Hfail)
      as (error & -> & Hcall & Hcalled).
    destruct (attempts_fail_last_warning _ _ _ _ _ _ _ _ Hfail
                (uniqueFallbacks_nonempty w))
      as (model & error' & w2 & Hlast & [= <-] & ->).
    exists model, error. split; [done|]. split; [done|].
    split; [exact Hcall|].
    split; [done|]. split; [by rewrite Hcalled|]. split.
    + by exists
        (lit "System overloaded or Model Error. Please try again later. (Last error: "),
        (lit ")").
    + cbn. by rewrite last_snoc.
  - intros Hquiet label.
    by apply callAIWithRetry_label_free.
  - intros thrown w' Hkey Hcall.
    destruct (callAIWithRetry_thrown _ _ _ _ _ _ Hcall)
      as [(Hnone & _)|[(_ & Hcalled & error & Hfail & ->)
         |(_ & pre & m & post & w1 & last1 & x & _ & Hcalled & _ & Hm & Hx & _)]];
      [done| |].
    + left. split; [done|]. by exists error.
    + right. exists m, (log_attempt operationName m w1), x.
      split; [by rewrite Hcalled, last_snoc|done].
Qed.

Lemma callAIWithRetry_exhausted_witness :
  (callAIWithRetry Demo.engine_message (lit "analyzeWriting") Demo.hopeless
     Demo.browser).1
    = Thrown (newError
        (lit "System overloaded or Model Error. Please try again later. (Last error: quota exceeded for gemini-2.5-flash)")) /\
  attempts Demo.engine_message (lit "analyzeWriting") Demo.hopeless Demo.browser
    = uniqueFallbacks Demo.browser /\
  length (attempts Demo.engine_message (lit "analyzeWriting") Demo.hopeless
            Demo.browser) = 3%nat /\
  last (console
          (callAIWithRetry Demo.engine_message (lit "analyzeWriting")
             Demo.hopeless Demo.browser).2)
    = Some (WarnLevel,
            [ lit "[analyzeWriting] Failed with model gemini-2.5-flash:";
              lit "quota exceeded for gemini-2.5-flash" ]) /\
  ignores_console Demo.hopeless /\
  (callAIWithRetry Demo.engine_message (lit "gradeSpeaking") Demo.hopeless
     Demo.browser).1
    = (callAIWithRetry Demo.engine_message (lit "analyzeWriting") Demo.hopeless
         Demo.browser).1 /\
  exists error,
    attempts_fail (lit "analyzeWriting") Demo.hopeless
      (getApiKey Demo.browser) (uniqueFallbacks Demo.browser) Demo.browser
      None
      (callAIWithRetry Demo.engine_message (lit "analyzeWriting")
         Demo.hopeless Demo.browser).2 (Some error).
Proof.
  assert (ignores_console Demo.hopeless) as Hquiet.
  { intros model ai w w' Hw. split; [reflexivity|exact Hw]. }
  destruct (callAIWithRetry_exhausted Demo.engine_message
              (lit "analyzeWriting") Demo.hopeless Demo.browser)
    as (H & Hlabel & Hthrown).
  assert (getApiKey Demo.browser <> []) as Hkey by (vm_compute; discriminate).
  edestruct H
    as (model & error & Hmodel & Hlast & Hcall & Hcalled & Hlen & _ & Hwarn).
  - exact Hkey.
  - change (uniqueFallbacks Demo.browser)
      with [ lit "gemini-3-flash-preview"; lit "gemini-3-pro-preview";
             lit "gemini-2.5-flash" ].
    eapply attempts_fail_cons; [vm_compute; reflexivity|].
    eapply attempts_fail_cons; [vm_compute; reflexivity|].
    eapply attempts_fail_cons; [vm_compute; reflexivity|].
    apply attempts_fail_nil.
  - injection Hlast as <-. injection Hmodel as <-. rewrite Hcall.
    split; [reflexivity|]. split; [exact Hcalled|].
    split; [rewrite Hlen; reflexivity|]. split; [exact Hwarn|].
    split; [exact Hquiet|].
    split; [exact (proj1 (Hlabel Hquiet (lit "gradeSpeaking")))|].
    destruct (Hthrown _ _ Hkey Hcall)
      as [(_ & error' & Hfail & _)|(m & w1 & x & _ & Hm & [Hx | Hx])].
    + exists error'. exact Hfail.
    + rewrite Hx in Hm. discriminate Hm.
    + rewrite Hx in Hm. discriminate Hm.
Defined.

(** C2 as stated fails twice over.  The aggregated error does not include
    the operation label: every candidate fails, each is tried once, and
    the label is nowhere in the message thrown.  And an operation that is
    rejected with [undefined] on every candidate is called once, not as
    many times as the chain is long, and what is thrown is not the
    aggregated error. *)
Lemma exhausted_error_omits_label :
  let label := lit "analyzeWriting" in
  (exists e w',
     callAIWithRetry Demo.type_error_message label Demo.hopeless Demo.browser
       = (Thrown (ErrorObject e), w') /\
     attempts Demo.type_error_message label Demo.hopeless Demo.browser
       = uniqueFallbacks Demo.browser /\
     occurs (lit "quota exceeded for gemini-2.5-flash") (message e) /\
     ~ occurs label (message e)) /\
  (forall model ai w, Demo.void model ai w = (Thrown UndefinedValue, w)) /\
  length (uniqueFallbacks Demo.browser) = 3%nat /\
  length (attempts Demo.type_error_message label Demo.void Demo.browser)
    = 1%nat /\
  (callAIWithRetry Demo.type_error_message label Demo.void Demo.browser).1
    = Thrown
        (mkError TypeError
           (lit "Cannot read properties of undefined (reading 'message')")).
Proof.
  cbn zeta. split.
  - eexists _, _. split; [vm_compute; reflexivity|].
    split; [vm_compute; reflexivity|]. split.
    + apply includes_occurs. vm_compute. reflexivity.
    + intros Hocc%includes_occurs. vm_compute in Hocc. discriminate.
  - split; [done|]. split; [by vm_compute|]. split; by vm_compute.
Qed.

(** C3: when the credential resolver returns the empty string, the
    wrapper throws the missing-key error at once; its message names the
    Settings action; the operation is not called at all and the world,
    the hosted service included, is left as it was. *)
Theorem callAIWithRetry_missing_key {Remote T}
    (typeErrorMessage : jsstring -> jsstring) (operationName : jsstring)
    (operationFn : jsstring -> GoogleGenAI -> Async Remote T)
    (w : World Remote) :
  getApiKey w = [] ->
  callAIWithRetry typeErrorMessage operationName operationFn w
    = (Thrown
         (newError
            (lit "API Key is missing. Please click 'Settings' to add your key.")),
       w) /\
  attempts typeErrorMessage operationName operationFn w = [] /\
  length (attempts typeErrorMessage operationName operationFn w) = 0%nat /\
  occurs (lit "click 'Settings'") missing_key_message.
Proof.
  intros Hkey. unfold callAIWithRetry, attempts.
  rewrite callAIWithRetry_traced_without_key by done. cbn [fst snd].
  split; [done|]. split; [done|]. split; [done|].
  apply includes_occurs. by vm_compute.
Qed.

Lemma callAIWithRetry_missing_key_witness :
  getApiKey Demo.no_key = [] /\
  callAIWithRetry Demo.engine_message (lit "demo") Demo.flaky Demo.no_key
    = (Thrown
         (newError
            (lit "API Key is missing. Please click 'Settings' to add your key.")),
       Demo.no_key) /\
  attempts Demo.engine_message (lit "demo") Demo.flaky Demo.no_key = [].
Proof.
  assert (getApiKey Demo.no_key = []) as Hkey by (vm_compute; reflexivity).
  destruct (callAIWithRetry_missing_key Demo.engine_message (lit "demo")
              Demo.flaky Demo.no_key Hkey)
    as (Hcall & Hcalled & _).
  split; [exact Hkey|]. split; [exact Hcall|exact Hcalled].
Defined.

(** ** Speech synthesis *)

Section Speech.
Context {Remote : Type}.
Variable generateContent :
  GoogleGenAI -> Request -> Remote -> (Response + Error) * Remote.
Variable typeErrorMessage : jsstring -> jsstring.

Local Abbreviation speak := (generateSpeech_operation generateContent).

Lemma generateSpeech_operation_returned text model ai (w w' : World Remote)
    audio :
  speak text model ai w = (Returned audio, w') ->
  exists response,
    models_generateContent generateContent ai
      (generateSpeech_request text model) w = (Returned response, w') /\
    first_inline_data response = Some audio /\ audio <> [].
Proof.
  unfold generateSpeech_operation, bind.
  destruct (models_generateContent _ _ _ w) as [[response|e] w1]; [|done].
  destruct (first_inline_data response) as [[|c d]|] eqn:Hdata; try done.
  intros [= <- <-]. by exists response.
Qed.

(** An answer whose first candidate's first part carries data makes the
    attempt return that data. *)
Lemma generateSpeech_operation_audio text model ai (w w' : World Remote)
    response c d :
  models_generateContent generateContent ai
    (generateSpeech_request text model) w = (Returned response, w') ->
  first_inline_data response = Some (c :: d) ->
  speak text model ai w = (Returned (c :: d), w').
Proof.
  intros Hsend Hdata. unfold generateSpeech_operation, bind.
  by rewrite Hsend, Hdata.
Qed.

(** An attempt is rejected with an error object only. *)
Lemma generateSpeech_operation_rejects text :
  rejects_with_error_objects (speak text).
Proof.
  intros model ai w x w'. unfold generateSpeech_operation, bind.
  unfold models_generateContent.
  destruct (generateContent _ _ _) as [[response|e] rem].
  - destruct (first_inline_data response) as [[|c d]|]; cbn;
      intros [= <- <-]; eauto.
  - intros [= <- <-]. eauto.
Qed.

Lemma generateSpeech_after_wrapper text (w : World Remote) :
  generateSpeech generateContent typeErrorMessage text w =
    match callAIWithRetry typeErrorMessage (lit "generateSpeech")
            (speak text) w with
    | (Returned audio, w') => (Returned audio, w')
    | (Thrown err, w') =>
        (Returned [],
         (console_write ErrorLevel [lit "TTS Final Fail:"; thrown_text err]
            w').2)
    end.
Proof.
  unfold generateSpeech, catch.
  by destruct (callAIWithRetry _ _ _ w) as [[audio|err] w'].
Qed.

Lemma generateSpeech_returns text (w : World Remote) :
  exists audio w',
    generateSpeech generateContent typeErrorMessage text w
      = (Returned audio, w').
Proof.
  rewrite generateSpeech_after_wrapper.
  destruct (callAIWithRetry _ _ _ w) as [[audio|err] w']; eauto.
Qed.

Lemma generateSpeech_on_failure text (w w' : World Remote)
    (thrown : Exception) :
  callAIWithRetry typeErrorMessage (lit "generateSpeech") (speak text) w
    = (Thrown thrown, w') ->
  generateSpeech generateContent typeErrorMessage text w =
    (Returned [],
     (console_write ErrorLevel [lit "TTS Final Fail:"; thrown_text thrown]
        w').2).
Proof. intros H. by rewrite generateSpeech_after_wrapper, H. Qed.

End Speech.

(** C7: [generateSpeech] never throws, whatever the text and the world.
    When every candidate has been tried without audio, and in general
    whenever the wrapper under it throws, the caller receives the empty
    string.  On success the caller receives the payload: when, after
    failures on the candidates before it or on none, a candidate is
    answered with data in the first part of the first candidate of the
    answer, [generateSpeech] returns exactly that data; and whatever the
    wrapper returns is such data, not empty, and is what the caller
    receives. *)
Theorem generateSpeech_best_effort {Remote}
    (generateContent :
       GoogleGenAI -> Request -> Remote -> (Response + Error) * Remote)
    (typeErrorMessage : jsstring -> jsstring)
    (text : json) (w : World Remote) :
  let operation := generateSpeech_operation generateContent text in
  let wrapped :=
    callAIWithRetry typeErrorMessage (lit "generateSpeech") operation in
  let speech := generateSpeech generateContent typeErrorMessage text in
  (exists audio w', speech w = (Returned audio, w')) /\
  (forall w' last',
      getApiKey w <> [] ->
      attempts_fail (lit "generateSpeech") operation (getApiKey w)
        (uniqueFallbacks w) w None w' last' ->
      attempts typeErrorMessage (lit "generateSpeech") operation w
        = uniqueFallbacks w /\
      exists w'', speech w = (Returned [], w'')) /\
  (forall (thrown : Exception) w',
      wrapped w = (Thrown thrown, w') ->
      exists w'', speech w = (Returned [], w'')) /\
  (forall pre model post w1 last1 w2 answer_text c payload parts more,
      getApiKey w <> [] ->
      uniqueFallbacks w = pre ++ model :: post ->
      attempts_fail (lit "generateSpeech") operation (getApiKey w)
        pre w None w1 last1 ->
      models_generateContent generateContent (mkClient (getApiKey w))
        (generateSpeech_request text model)
        (log_attempt (lit "generateSpeech") model w1)
        = (Returned
             (mkResponse answer_text
                (Some
                   (mkCandidate
                      (Some
                         (mkContent
                            (Some
                               (mkResponsePart
                                  (Some (mkBlob (Some (c :: payload))))
                                :: parts))))
                    :: more))),
           w2) ->
      speech w = (Returned (c :: payload), w2) /\
      attempts typeErrorMessage (lit "generateSpeech") operation w
        = pre ++ [model]) /\
  (forall audio w',
      wrapped w = (Returned audio, w') ->
      speech w = (Returned audio, w') /\
      audio <> [] /\
      exists model w1 response,
        model ∈ uniqueFallbacks w /\
        models_generateContent generateContent (mkClient (getApiKey w))
          (generateSpeech_request text model) w1 = (Returned response, w') /\
        first_inline_data response = Some audio).
Proof.
  cbn zeta. split; [apply generateSpeech_returns|]. split; [|split; [|split]].
  - intros w' last' Hkey Hfail.
    destruct (callAIWithRetry_all_fail typeErrorMessage _ _ _ _ _ Hkey Hfail)
      as (error & _ & Hcall & Hcalled).
    split; [done|]. rewrite (generateSpeech_on_failure _ _ _ _ _ _ Hcall). eauto.
  - intros thrown w' Hcall.
    rewrite (generateSpeech_on_failure _ _ _ _ _ _ Hcall). eauto.
  - intros pre model post w1 last1 w2 answer_text c payload parts more
      Hkey Hchain Hfail Hsend.
    apply generateSpeech_operation_audio with (c := c) (d := payload)
      in Hsend; [|done].
    destruct (callAIWithRetry_success_after typeErrorMessage _ _ _ _ _ _ _ _
                _ _ Hkey Hchain Hfail Hsend) as [Hcall Hcalled].
    split; [|done]. by rewrite generateSpeech_after_wrapper, Hcall.
  - intros audio w' Hcall.
    split; [by rewrite generateSpeech_after_wrapper, Hcall|].
    destruct (callAIWithRetry_returned _ _ _ _ _ _ Hcall)
      as (pre & model & post & w1 & last1 & Hchain & _ & _ & Hop).
    apply generateSpeech_operation_returned in Hop as (response & Hreq & Hdata & Hne).
    split; [done|]. exists model, (log_attempt (lit "generateSpeech") model w1), response.
    split; [|done]. rewrite Hchain. set_solver.
Qed.

(** Against the service without a voice every candidate is tried and the
    caller receives the empty string; against the service with a voice
    the first candidate is answered with audio and the caller receives
    the payload. *)
Lemma generateSpeech_best_effort_witness :
  let hello := JString (lit "Hello!") in
  (getApiKey Demo.browser <> [] /\
   attempts Demo.engine_message (lit "generateSpeech")
     (generateSpeech_operation Demo.service hello) Demo.browser
     = uniqueFallbacks Demo.browser /\
   exists w'',
     generateSpeech Demo.service Demo.engine_message hello Demo.browser
       = (Returned [], w'')) /\
  (exists w2,
     generateSpeech Demo.speaking_service Demo.engine_message hello
       Demo.browser = (Returned (lit "UklGRg=="), w2)) /\
  attempts Demo.engine_message (lit "generateSpeech")
    (generateSpeech_operation Demo.speaking_service hello) Demo.browser
    = [lit "gemini-3-flash-preview"].
Proof.
  cbn zeta.
  assert (getApiKey Demo.browser <> []) as Hkey by (vm_compute; discriminate).
  split; [|split].
  - destruct (generateSpeech_best_effort Demo.service Demo.engine_message
                (JString (lit "Hello!")) Demo.browser) as (_ & H & _).
    split; [exact Hkey|]. eapply H; [exact Hkey|].
    change (uniqueFallbacks Demo.browser)
      with [ lit "gemini-3-flash-preview"; lit "gemini-3-pro-preview";
             lit "gemini-2.5-flash" ].
    eapply attempts_fail_cons; [vm_compute; reflexivity|].
    eapply attempts_fail_cons; [vm_compute; reflexivity|].
    eapply attempts_fail_cons; [vm_compute; reflexivity|].
    apply attempts_fail_nil.
  - destruct (generateSpeech_best_effort Demo.speaking_service
                Demo.engine_message (JString (lit "Hello!")) Demo.browser)
      as (_ & _ & _ & H & _).
    eexists.
    refine (proj1 (H [] (lit "gemini-3-flash-preview")
                     [lit "gemini-3-pro-preview"; lit "gemini-2.5-flash"]
                     Demo.browser None _ None 85 (lit "klGRg==") [] []
                     Hkey _ (attempts_fail_nil _ _ _ _ _) _)).
    + vm_compute. reflexivity.
    + vm_compute. reflexivity.
  - destruct (generateSpeech_best_effort Demo.speaking_service
                Demo.engine_message (JString (lit "Hello!")) Demo.browser)
      as (_ & _ & _ & H & _).
    refine (proj2 (H [] (lit "gemini-3-flash-preview")
                     [lit "gemini-3-pro-preview"; lit "gemini-2.5-flash"]
                     Demo.browser None
                     (models_generateContent Demo.speaking_service
                        (mkClient (getApiKey Demo.browser))
                        (generateSpeech_request (JString (lit "Hello!"))
                           (lit "gemini-3-flash-preview"))
                        (log_attempt (lit "generateSpeech")
                           (lit "gemini-3-flash-preview") Demo.browser)).2
                     None 85 (lit "klGRg==") [] []
                     Hkey _ (attempts_fail_nil _ _ _ _ _) _)).
    + vm_compute. reflexivity.
    + vm_compute. reflexivity.
Defined.

(** With a service that has a voice the payload is handed back. *)
Example generateSpeech_payload :
  (generateSpeech Demo.speaking_service Demo.engine_message (JString (lit "Hello!")) Demo.browser).1
    = Returned (lit "UklGRg==").
Proof. by vm_compute. Qed.

(** ** What the operations are rejected with

    The SDK rejects with error objects, [JSON.parse] and a failed property
    read throw error objects, and so does the module: no operation of the
    module is rejected with [undefined] or [null]. *)

Section Rejections.
Context {Remote : Type}.
Variable generateContent :
  GoogleGenAI -> Request -> Remote -> (Response + Error) * Remote.
Variable syntaxErrorMessage typeErrorMessage : jsstring -> jsstring.

Lemma throws_objects_ret {A} (a : A) :
  throws_error_objects (@ret Remote A a).
Proof. by intros w x w'. Qed.

Lemma throws_objects_throw {A} (e : Error) :
  throws_error_objects (@throw Remote A e).
Proof. intros w x w' [= <- <-]. eauto. Qed.

Lemma throws_objects_bind {A B} (m : Async Remote A) (f : A -> Async Remote B) :
  throws_error_objects m -> (forall a, throws_error_objects (f a)) ->
  throws_error_objects (bind m f).
Proof.
  intros Hm Hf w x w'. unfold bind.
  destruct (m w) as [[a|y] w1] eqn:Hmw.
  - apply Hf.
  - intros [= <- <-]. by apply (Hm _ _ _ Hmw).
Qed.

Lemma throws_objects_send ai req :
  throws_error_objects (models_generateContent generateContent ai req).
Proof.
  intros w x w'. unfold models_generateContent.
  destruct (generateContent _ _ _) as [[response|e] rem]; [done|].
  intros [= <- <-]. eauto.
Qed.

Lemma throws_objects_JSON_parse text :
  throws_error_objects (@JSON_parse Remote syntaxErrorMessage text).
Proof.
  unfold JSON_parse. destruct (Json.parse text).
  - apply throws_objects_ret.
  - apply throws_objects_throw.
Qed.

Lemma throws_objects_get_property result name :
  throws_error_objects (@get_property Remote typeErrorMessage result name).
Proof.
  destruct result; try apply throws_objects_ret. apply throws_objects_throw.
Qed.

Lemma throws_objects_generateSpeech text :
  throws_error_objects (generateSpeech generateContent typeErrorMessage text).
Proof.
  intros w x w' H.
  destruct (generateSpeech_returns generateContent typeErrorMessage text w)
    as (audio & w2 & Hs).
  by rewrite Hs in H.
Qed.

Lemma throws_objects_examiner_turn result :
  throws_error_objects (examiner_turn generateContent typeErrorMessage result).
Proof.
  unfold examiner_turn.
  apply throws_objects_bind; [apply throws_objects_get_property|].
  intros response. apply throws_objects_bind.
  - destruct (truthy response); [|apply throws_objects_ret].
    destruct response; [apply throws_objects_generateSpeech
                       |apply throws_objects_ret].
  - intros audio.
    apply throws_objects_bind; [apply throws_objects_get_property|].
    intros transcription.
    apply throws_objects_bind; [apply throws_objects_get_property|].
    intros again. apply throws_objects_ret.
Qed.

Lemma parsing_operation_rejects (request : jsstring -> Request) :
  rejects_with_error_objects
    (fun model ai =>
       bind (models_generateContent generateContent ai (request model))
         (fun response =>
            @JSON_parse Remote syntaxErrorMessage (jsonText response))).
Proof.
  intros model ai.
  apply throws_objects_bind; [apply throws_objects_send|].
  intros response. apply throws_objects_JSON_parse.
Qed.

Lemma interactWithExaminer_operation_rejects history topic userAudioBase64
    specificQuestion isFinish :
  rejects_with_error_objects
    (interactWithExaminer_operation generateContent syntaxErrorMessage
       typeErrorMessage history topic userAudioBase64 specificQuestion
       isFinish).
Proof.
  intros model ai. unfold interactWithExaminer_operation.
  apply throws_objects_bind; [apply throws_objects_send|].
  intros response.
  apply throws_objects_bind; [apply throws_objects_JSON_parse|].
  intros result. apply throws_objects_examiner_turn.
Qed.

End Rejections.

(** ** The callers that parse the model's text *)

Section Parsing.
Context {Remote : Type}.
Variable generateContent :
  GoogleGenAI -> Request -> Remote -> (Response + Error) * Remote.
Variable syntaxErrorMessage : jsstring -> jsstring.
Variable typeErrorMessage : jsstring -> jsstring.

Local Abbreviation send := (models_generateContent generateContent).
Local Abbreviation parse_text := (@JSON_parse Remote syntaxErrorMessage).

Lemma JSON_parse_failure text (w : World Remote) :
  Json.parse text = None ->
  parse_text text w = (Thrown (mkError SyntaxError (syntaxErrorMessage text)), w).
Proof. unfold JSON_parse. by intros ->. Qed.

Lemma JSON_parse_success text v (w : World Remote) :
  Json.parse text = Some v -> parse_text text w = (Returned v, w).
Proof. unfold JSON_parse. by intros ->. Qed.

Lemma jsonText_empty response :
  resp_text response = None \/ resp_text response = Some [] ->
  jsonText response = lit "{}" /\ Json.parse (jsonText response) = Some (JObject []).
Proof. unfold jsonText. intros [-> | ->]; by vm_compute. Qed.

(** The three callers that return the parsed value as it is. *)
Lemma analyzeWriting_operation_sent text taskType model ai
    (w w1 : World Remote) response :
  send ai (analyzeWriting_request text taskType model) w = (Returned response, w1) ->
  analyzeWriting_operation generateContent syntaxErrorMessage text taskType
    model ai w = parse_text (jsonText response) w1.
Proof. intros H. unfold analyzeWriting_operation, bind. by rewrite H. Qed.

Lemma gradeSpeakingSession_operation_sent fullHistory topic lastAudioBase64
    model ai (w w1 : World Remote) response :
  send ai (gradeSpeakingSession_request fullHistory topic lastAudioBase64 model)
    w = (Returned response, w1) ->
  gradeSpeakingSession_operation generateContent syntaxErrorMessage
    fullHistory topic lastAudioBase64 model ai w
    = parse_text (jsonText response) w1.
Proof. intros H. unfold gradeSpeakingSession_operation, bind. by rewrite H. Qed.

Lemma analyzePronunciation_operation_sent audioBase64 targetText model ai
    (w w1 : World Remote) response :
  send ai (analyzePronunciation_request audioBase64 targetText model) w
    = (Returned response, w1) ->
  analyzePronunciation_operation generateContent syntaxErrorMessage
    audioBase64 targetText model ai w = parse_text (jsonText response) w1.
Proof. intros H. unfold analyzePronunciation_operation, bind. by rewrite H. Qed.

Local Abbreviation examiner_turn_after :=
  (examiner_turn generateContent typeErrorMessage).

Lemma interactWithExaminer_operation_sent history topic userAudioBase64
    specificQuestion isFinish model ai (w w1 : World Remote) response :
  send ai
    (interactWithExaminer_request history topic userAudioBase64
       specificQuestion isFinish model) w = (Returned response, w1) ->
  interactWithExaminer_operation generateContent syntaxErrorMessage
    typeErrorMessage history topic userAudioBase64 specificQuestion isFinish
    model ai w
  = bind (parse_text (jsonText response)) examiner_turn_after w1.
Proof.
  intros H. unfold interactWithExaminer_operation.
  unfold bind at 1. by rewrite H.
Qed.

Lemma get_property_member result name (w : World Remote) :
  result <> JNull ->
  get_property typeErrorMessage result name w
    = (Returned (member result name), w).
Proof. by destruct result. Qed.

Lemma examiner_turn_after_quiet result (w : World Remote) :
  result <> JNull ->
  truthy (member result (lit "response")) = false ->
  examiner_turn_after result w =
    (Returned
       (mkExaminerTurn
          (transcription_or_empty (member result (lit "transcription")))
          (member result (lit "response")) []),
     w).
Proof.
  intros Hnull Hquiet. unfold examiner_turn, bind.
  rewrite get_property_member by done. rewrite Hquiet. unfold ret at 1.
  by rewrite !get_property_member.
Qed.

Lemma examiner_turn_after_spoken result v (w : World Remote) :
  result <> JNull ->
  member result (lit "response") = Some v ->
  truthy (Some v) = true ->
  exists audio w2,
    generateSpeech generateContent typeErrorMessage v w = (Returned audio, w2) /\
    examiner_turn_after result w =
      (Returned
         (mkExaminerTurn
            (transcription_or_empty (member result (lit "transcription")))
            (Some v) audio),
       w2).
Proof.
  intros Hnull Hv Htruthy.
  destruct (generateSpeech_returns generateContent typeErrorMessage v w) as (audio & w2 & Hs).
  exists audio, w2. split; [done|].
  unfold examiner_turn, bind.
  rewrite get_property_member by done. rewrite Hv, Htruthy, Hs.
  rewrite !get_property_member by done. by rewrite Hv.
Qed.

Lemma malformed_is_failed_attempt {T} name
    (op : jsstring -> GoogleGenAI -> Async Remote T)
    (request : jsstring -> Request) :
  (forall model ai (w w1 : World Remote) response,
      send ai (request model) w = (Returned response, w1) ->
      Json.parse (jsonText response) = None ->
      op model ai w
        = (Thrown (mkError SyntaxError (syntaxErrorMessage (jsonText response))),
           w1)) ->
  rejects_with_error_objects op ->
  falls_back_on_malformed generateContent syntaxErrorMessage typeErrorMessage
    name op request.
Proof.
  intros Hop Hobjects. split.
  - intros key model rest last w w1 response Hsent Hbad. cbn zeta.
    pose proof (Hop _ _ _ _ _ Hsent Hbad) as Hthrown.
    split; [done|]. by apply retry_loop_failure.
  - intros w w' thrown Hcall.
    destruct (callAIWithRetry_thrown_errors _ _ _ _ _ _ Hobjects Hcall)
      as [(_ & -> & _)|(_ & _ & error & _ & ->)]; by eexists.
Qed.

End Parsing.



(** C9, as the code has it: when the answer carries no text, or the empty
    text, each caller parses the literal of the empty object instead, and
    the attempt succeeds.  [analyzeWriting], [gradeSpeakingSession] and
    [analyzePronunciation] return the empty object; the operation of
    [interactWithExaminer] asks for no speech and returns its own object,
    with the empty transcription, an undefined response and empty audio. *)
Theorem empty_text_parses_as_empty_object {Remote}
    (generateContent :
       GoogleGenAI -> Request -> Remote -> (Response + Error) * Remote)
    (syntaxErrorMessage typeErrorMessage : jsstring -> jsstring)
    (model : jsstring) (ai : GoogleGenAI) (w w1 : World Remote)
    (response : Response) :
  resp_text response = None \/ resp_text response = Some [] ->
  let send := models_generateContent generateContent ai in
  text_or_empty_object (resp_text response) = lit "{}" /\
  Json.parse (jsonText response) = Some (JObject []) /\
  (forall text taskType,
      send (analyzeWriting_request text taskType model) w
        = (Returned response, w1) ->
      analyzeWriting_operation generateContent syntaxErrorMessage text
        taskType model ai w = (Returned (JObject []), w1)) /\
  (forall fullHistory topic lastAudioBase64,
      send (gradeSpeakingSession_request fullHistory topic lastAudioBase64
              model) w = (Returned response, w1) ->
      gradeSpeakingSession_operation generateContent syntaxErrorMessage
        fullHistory topic lastAudioBase64 model ai w
        = (Returned (JObject []), w1)) /\
  (forall audioBase64 targetText,
      send (analyzePronunciation_request audioBase64 targetText model) w
        = (Returned response, w1) ->
      analyzePronunciation_operation generateContent syntaxErrorMessage
        audioBase64 targetText model ai w = (Returned (JObject []), w1)) /\
  (forall history topic userAudioBase64 specificQuestion isFinish,
      send (interactWithExaminer_request history topic userAudioBase64
              specificQuestion isFinish model) w = (Returned response, w1) ->
      interactWithExaminer_operation generateContent syntaxErrorMessage
        typeErrorMessage history topic userAudioBase64 specificQuestion
        isFinish model ai w
        = (Returned (mkExaminerTurn (JString []) None []), w1)).
Proof.
  intros Hempty. cbn zeta.
  destruct (jsonText_empty _ Hempty) as [Htext Hparse].
  split; [by destruct Hempty as [-> | ->]|]. split; [done|].
  split; [|split; [|split]].
  - intros text taskType Hsent.
    rewrite (analyzeWriting_operation_sent _ _ _ _ _ _ _ _ _ Hsent).
    by apply JSON_parse_success.
  - intros fullHistory topic lastAudioBase64 Hsent.
    rewrite (gradeSpeakingSession_operation_sent _ _ _ _ _ _ _ _ _ _ Hsent).
    by apply JSON_parse_success.
  - intros audioBase64 targetText Hsent.
    rewrite (analyzePronunciation_operation_sent _ _ _ _ _ _ _ _ _ Hsent).
    by apply JSON_parse_success.
  - intros history topic userAudioBase64 specificQuestion isFinish Hsent.
    rewrite (interactWithExaminer_operation_sent _ _ _ _ _ _ _ _ _ _ _ _ _ Hsent).
    unfold bind at 1. rewrite (JSON_parse_success _ _ _ _ Hparse).
    by rewrite examiner_turn_after_quiet.
Qed.

Lemma empty_text_parses_as_empty_object_witness :
  let ai := mkClient (lit "AIza-demo") in
  let model := lit "gemini-3-flash-preview" in
  let silent := mkResponse None None in
  let asked :=
    interactWithExaminer_request [] (lit "Food") None None false model in
  let w1 :=
    (models_generateContent Demo.silent_service ai asked Demo.browser).2 in
  resp_text silent = None /\
  models_generateContent Demo.silent_service ai asked Demo.browser
    = (Returned silent, w1) /\
  interactWithExaminer_operation Demo.silent_service Demo.engine_message
    Demo.engine_message [] (lit "Food") None None false model ai Demo.browser
    = (Returned (mkExaminerTurn (JString []) None []), w1).
Proof.
  cbn zeta.
  assert (models_generateContent Demo.silent_service (mkClient (lit "AIza-demo"))
            (interactWithExaminer_request [] (lit "Food") None None false
               (lit "gemini-3-flash-preview")) Demo.browser
          = (Returned (mkResponse None None),
             (models_generateContent Demo.silent_service
                (mkClient (lit "AIza-demo"))
                (interactWithExaminer_request [] (lit "Food") None None false
                   (lit "gemini-3-flash-preview")) Demo.browser).2)) as Hsent
    by (vm_compute; reflexivity).
  split; [reflexivity|]. split; [exact Hsent|].
  match type of Hsent with
  | _ = (_, ?w1) =>
      destruct (empty_text_parses_as_empty_object Demo.silent_service
                  Demo.engine_message Demo.engine_message
                  (lit "gemini-3-flash-preview") (mkClient (lit "AIza-demo"))
                  Demo.browser w1 (mkResponse None None) (or_introl eq_refl))
        as (_ & _ & _ & _ & _ & Hexaminer)
  end.
  exact (Hexaminer [] (lit "Food") None None false Hsent).
Defined.

(** C9 as stated fails for [interactWithExaminer]: with an answer that
    carries no text the call succeeds, and the object it returns has three
    properties. *)
Lemma examiner_turn_has_fields :
  exists turn w',
    interactWithExaminer Demo.silent_service Demo.engine_message
      Demo.engine_message [] (lit "Food") None None false Demo.browser
      = (Returned turn, w') /\
    ExaminerTurn_properties turn
      = [ (lit "userTranscription", Some (JString []));
          (lit "aiResponse", None);
          (lit "aiAudioBase64", Some (JString [])) ] /\
    ExaminerTurn_properties turn <> [].
Proof.
  eexists _, _. split; [vm_compute; reflexivity|].
  split; [vm_compute; reflexivity|]. discriminate.
Qed.

(** C10: once the examiner's answer has been parsed to a value other than
    [null], the interview turn does not fail, whatever happens to the
    speech: speech is asked for only when the response member is truthy,
    so never for an absent response or for the empty text; a synthesis
    that fails on every candidate leaves the audio empty; and the
    transcription and the response returned are read from the parsed
    answer alone. *)
Theorem synthesis_failure_is_isolated {Remote}
    (generateContent :
       GoogleGenAI -> Request -> Remote -> (Response + Error) * Remote)
    (syntaxErrorMessage typeErrorMessage : jsstring -> jsstring)
    history topic userAudioBase64 specificQuestion isFinish
    (model : jsstring) (ai : GoogleGenAI) (w w1 : World Remote)
    (response : Response) (result : json) :
  models_generateContent generateContent ai
    (interactWithExaminer_request history topic userAudioBase64
       specificQuestion isFinish model) w = (Returned response, w1) ->
  Json.parse (jsonText response) = Some result ->
  result <> JNull ->
  let operation :=
    interactWithExaminer_operation generateContent syntaxErrorMessage
      typeErrorMessage history topic userAudioBase64 specificQuestion
      isFinish model ai in
  let spoken := member result (lit "response") in
  let heard := transcription_or_empty (member result (lit "transcription")) in
  (spoken = None \/ spoken = Some (JString []) -> truthy spoken = false) /\
  (truthy spoken = false ->
   operation w = (Returned (mkExaminerTurn heard spoken []), w1)) /\
  (forall v,
      spoken = Some v -> truthy spoken = true ->
      exists audio w2,
        generateSpeech generateContent typeErrorMessage v w1 = (Returned audio, w2) /\
        operation w = (Returned (mkExaminerTurn heard spoken audio), w2) /\
        (forall e w',
            callAIWithRetry typeErrorMessage (lit "generateSpeech")
              (generateSpeech_operation generateContent v) w1 = (Thrown e, w') ->
            audio = [])) /\
  (exists turn w2,
      operation w = (Returned turn, w2) /\
      userTranscription turn = heard /\ aiResponse turn = spoken).
Proof.
  intros Hsent Hparse Hnull. cbn zeta.
  rewrite (interactWithExaminer_operation_sent _ _ _ _ _ _ _ _ _ _ _ _ _ Hsent).
  unfold bind at 1 2 3. rewrite (JSON_parse_success _ _ _ _ Hparse).
  split; [by intros [-> | ->]|]. split; [|split].
  - intros Hquiet. by apply examiner_turn_after_quiet.
  - intros v Hv Htruthy. rewrite Hv in Htruthy.
    destruct (examiner_turn_after_spoken generateContent typeErrorMessage
                _ _ w1 Hnull Hv Htruthy) as (audio & w2 & Hs & Hturn).
    exists audio, w2. rewrite Hv. split; [done|]. split; [done|].
    intros e w' Hfail.
    rewrite (generateSpeech_on_failure _ _ _ _ _ _ Hfail) in Hs. congruence.
  - destruct (truthy (member result (lit "response"))) eqn:Htruthy.
    + destruct (member result (lit "response")) as [v|] eqn:Hv; [|done].
      destruct (examiner_turn_after_spoken generateContent typeErrorMessage
                  _ _ w1 Hnull Hv Htruthy) as (audio & w2 & _ & ->).
      by eexists _, _.
    + rewrite examiner_turn_after_quiet by done. by eexists _, _.
Qed.

Lemma synthesis_failure_is_isolated_witness :
  let ai := mkClient (lit "AIza-demo") in
  let model := lit "gemini-3-flash-preview" in
  let asked :=
    interactWithExaminer_request [] (lit "Food") None None false model in
  let answer :=
    mkResponse (Some (tpl "{~transcription~:~hi~,~response~:~Hello!~}")) None in
  let result :=
    JObject [ (lit "transcription", JString (lit "hi"));
              (lit "response", JString (lit "Hello!")) ] in
  let w1 := (models_generateContent Demo.mute_service ai asked Demo.browser).2 in
  models_generateContent Demo.mute_service ai asked Demo.browser
    = (Returned answer, w1) /\
  Json.parse (jsonText answer) = Some result /\
  result <> JNull /\
  exists w2,
    interactWithExaminer_operation Demo.mute_service Demo.engine_message
      Demo.engine_message [] (lit "Food") None None false model ai Demo.browser
    = (Returned
         (mkExaminerTurn (JString (lit "hi")) (Some (JString (lit "Hello!"))) []),
       w2).
Proof.
  intros ai model asked answer result w1.
  assert (models_generateContent Demo.mute_service ai asked Demo.browser
          = (Returned answer, w1)) as Hsent by (vm_compute; reflexivity).
  assert (Json.parse (jsonText answer) = Some result) as Hparse
    by (vm_compute; reflexivity).
  assert (result <> JNull) as Hnull by discriminate.
  split; [exact Hsent|]. split; [exact Hparse|]. split; [exact Hnull|].
  destruct (synthesis_failure_is_isolated Demo.mute_service
              Demo.engine_message Demo.engine_message
              [] (lit "Food") None None false model ai Demo.browser w1
              answer result Hsent Hparse Hnull)
    as (_ & _ & Hspoken & _).
  destruct (Hspoken (JString (lit "Hello!")))
    as (audio & w2 & _ & Hturn & Hfail).
  - vm_compute. reflexivity.
  - vm_compute. reflexivity.
  - assert (audio = []) as ->.
    { eapply Hfail. vm_compute. reflexivity. }
    exists w2. exact Hturn.
Defined.

(** * Further properties *)

(** ** What the service calls leave alone *)

Section Frame.
Context {Remote : Type}.
Variable generateContent :
  GoogleGenAI -> Request -> Remote -> (Response + Error) * Remote.
Variable syntaxErrorMessage typeErrorMessage : jsstring -> jsstring.

Lemma keeps_settings_refl (w : World Remote) : keeps_settings w w.
Proof. by repeat split. Qed.

Lemma keeps_settings_trans (w1 w2 w3 : World Remote) :
  keeps_settings w1 w2 -> keeps_settings w2 w3 -> keeps_settings w1 w3.
Proof.
  intros (Ha & Hb & Hc & Hd) (Ha' & Hb' & Hc' & Hd').
  repeat split; [congruence..|]. by etrans.
Qed.

Lemma preserves_ret {A} (a : A) : preserves_settings (@ret Remote A a).
Proof. intros w. apply keeps_settings_refl. Qed.

Lemma preserves_throw {A} e : preserves_settings (@throw Remote A e).
Proof. intros w. apply keeps_settings_refl. Qed.

Lemma preserves_bind {A B} (m : Async Remote A) (f : A -> Async Remote B) :
  preserves_settings m -> (forall a, preserves_settings (f a)) ->
  preserves_settings (bind m f).
Proof.
  intros Hm Hf w. unfold bind. specialize (Hm w).
  destruct (m w) as [[a|e] w1]; [|done].
  eapply keeps_settings_trans; [exact Hm|apply Hf].
Qed.

Lemma preserves_catch {A} (m : Async Remote A)
    (h : Exception -> Async Remote A) :
  preserves_settings m -> (forall e, preserves_settings (h e)) ->
  preserves_settings (catch m h).
Proof.
  intros Hm Hh w. unfold catch. specialize (Hm w).
  destruct (m w) as [[a|e] w1]; [done|].
  eapply keeps_settings_trans; [exact Hm|apply Hh].
Qed.

Lemma preserves_console_write lvl args :
  preserves_settings (@console_write Remote lvl args).
Proof. intros w. repeat split. cbn. by apply prefix_app_r. Qed.

Lemma preserves_generateContent ai req :
  preserves_settings (models_generateContent generateContent ai req).
Proof.
  intros w. unfold models_generateContent.
  destruct (generateContent ai req (remote w)) as [[resp|e] rem];
    by repeat split.
Qed.

Lemma preserves_JSON_parse text :
  preserves_settings (@JSON_parse Remote syntaxErrorMessage text).
Proof.
  unfold JSON_parse. destruct (Json.parse text);
    [apply preserves_ret|apply preserves_throw].
Qed.

Lemma preserves_get_property result name :
  preserves_settings (@get_property Remote typeErrorMessage result name).
Proof.
  unfold get_property. destruct result;
    (apply preserves_ret || apply preserves_throw).
Qed.

Lemma keeps_log_attempt name model (w : World Remote) :
  keeps_settings w (log_attempt name model w).
Proof. apply preserves_console_write. Qed.

Lemma keeps_log_failed name model error (w : World Remote) :
  keeps_settings w (log_failed name model error w).
Proof. apply preserves_console_write. Qed.

Lemma retry_loop_keeps {T} name
    (op : jsstring -> GoogleGenAI -> Async Remote T) key models last w :
  (forall model ai, preserves_settings (op model ai)) ->
  keeps_settings w (retry_loop typeErrorMessage name op key models last w).1.2.
Proof.
  intros Hop. revert last w.
  induction models as [|model rest IH]; intros last w.
  - apply keeps_settings_refl.
  - cbn [retry_loop].
    pose proof (Hop model (mkClient key) (log_attempt name model w)) as H1.
    destruct (op _ _ _) as [[v|[error| |]] w2]; cbn [fst snd] in *.
    + eapply keeps_settings_trans; [apply keeps_log_attempt|exact H1].
    + specialize (IH (Some error) (log_failed name model error w2)).
      destruct (retry_loop _ _ _ _ _ _ _) as [[res w4] called].
      cbn [fst snd] in *.
      eapply keeps_settings_trans; [apply keeps_log_attempt|].
      eapply keeps_settings_trans; [exact H1|].
      eapply keeps_settings_trans; [apply keeps_log_failed|exact IH].
    + eapply keeps_settings_trans; [apply keeps_log_attempt|exact H1].
    + eapply keeps_settings_trans; [apply keeps_log_attempt|exact H1].
Qed.

Lemma preserves_callAIWithRetry {T} name
    (op : jsstring -> GoogleGenAI -> Async Remote T) :
  (forall model ai, preserves_settings (op model ai)) ->
  preserves_settings (callAIWithRetry typeErrorMessage name op).
Proof.
  intros Hop w. unfold callAIWithRetry, callAIWithRetry_traced.
  destruct (getApiKey w); [apply keeps_settings_refl|].
  by apply retry_loop_keeps.
Qed.

Lemma preserves_generateSpeech_operation text model ai :
  preserves_settings (generateSpeech_operation generateContent text model ai).
Proof.
  apply preserves_bind; [apply preserves_generateContent|].
  intros response. destruct (first_inline_data response) as [[|c d]|];
    (apply preserves_ret || apply preserves_throw).
Qed.

Lemma preserves_generateSpeech text :
  preserves_settings (generateSpeech generateContent typeErrorMessage text).
Proof.
  apply preserves_catch.
  - apply preserves_callAIWithRetry. intros model ai.
    apply preserves_generateSpeech_operation.
  - intros e. apply preserves_bind; [apply preserves_console_write|].
    intros _. apply preserves_ret.
Qed.

Lemma preserves_examiner_turn result :
  preserves_settings (examiner_turn generateContent typeErrorMessage result).
Proof.
  apply preserves_bind; [apply preserves_get_property|]. intros spoken.
  apply preserves_bind.
  { destruct (truthy spoken); [|apply preserves_ret].
    destruct spoken; [apply preserves_generateSpeech|apply preserves_ret]. }
  intros audio.
  apply preserves_bind; [apply preserves_get_property|]. intros heard.
  apply preserves_bind; [apply preserves_get_property|]. intros again.
  apply preserves_ret.
Qed.

Lemma keeps_settings_key (w w' : World Remote) :
  keeps_settings w w' ->
  getApiKey w' = getApiKey w /\ uniqueFallbacks w' = uniqueFallbacks w.
Proof.
  intros (Hw & Ha & Hg & _).
  unfold uniqueFallbacks, currentModel, getApiKey, localStorage_getItem.
  by rewrite Hw, Ha, Hg.
Qed.

End Frame.

(** X1: no service function writes to the stored settings or to the
    process configuration, and none removes a console line: after any of
    them, returned or thrown, local storage and both configuration
    variables are what they were and the console has only grown; so the
    key and the candidate chain of the next call are those of this one. *)
Theorem service_calls_keep_settings {Remote}
    (generateContent :
       GoogleGenAI -> Request -> Remote -> (Response + Error) * Remote)
    (syntaxErrorMessage typeErrorMessage : jsstring -> jsstring) :
  let kept {A} (m : Async Remote A) :=
    forall w,
      keeps_settings w (m w).2 /\
      getApiKey (m w).2 = getApiKey w /\
      uniqueFallbacks (m w).2 = uniqueFallbacks w in
  (forall text, kept (generateSpeech generateContent typeErrorMessage text)) /\
  (forall text taskType,
      kept (analyzeWriting generateContent syntaxErrorMessage
              typeErrorMessage text taskType)) /\
  (forall audioBase64 topic,
      kept (analyzeSpeaking generateContent syntaxErrorMessage
              typeErrorMessage audioBase64 topic)) /\
  (forall history topic userAudioBase64 specificQuestion isFinish,
      kept (interactWithExaminer generateContent syntaxErrorMessage
              typeErrorMessage history topic userAudioBase64 specificQuestion
              isFinish)) /\
  (forall fullHistory topic lastAudioBase64,
      kept (gradeSpeakingSession generateContent syntaxErrorMessage
              typeErrorMessage fullHistory topic lastAudioBase64)) /\
  (forall audioBase64 targetText,
      kept (analyzePronunciation generateContent syntaxErrorMessage
              typeErrorMessage audioBase64 targetText)).
Proof.
  cbn zeta.
  assert (forall A (m : Async Remote A), preserves_settings m ->
            forall w, keeps_settings w (m w).2 /\
                      getApiKey (m w).2 = getApiKey w /\
                      uniqueFallbacks (m w).2 = uniqueFallbacks w) as Hkept.
  { intros A m Hm w. split; [apply Hm|]. apply keeps_settings_key, Hm. }
  split; [|split; [|split; [|split; [|split]]]]; intros; apply Hkept.
  - apply preserves_generateSpeech.
  - apply preserves_callAIWithRetry. intros model ai.
    apply preserves_bind; [apply preserves_generateContent|].
    intros response. apply preserves_JSON_parse.
  - apply preserves_callAIWithRetry. intros model ai.
    apply preserves_bind; [apply preserves_generateContent|].
    intros response. apply preserves_JSON_parse.
  - apply preserves_callAIWithRetry. intros model ai.
    apply preserves_bind; [apply preserves_generateContent|].
    intros response. apply preserves_bind; [apply preserves_JSON_parse|].
    intros result. apply preserves_examiner_turn.
  - apply preserves_callAIWithRetry. intros model ai.
    apply preserves_bind; [apply preserves_generateContent|].
    intros response. apply preserves_JSON_parse.
  - apply preserves_callAIWithRetry. intros model ai.
    apply preserves_bind; [apply preserves_generateContent|].
    intros response. apply preserves_JSON_parse.
Qed.

(** ** The chain and the number of attempts *)

Lemma currentModel_supported {Remote} (w : World Remote) :
  currentModel w ∈ model_id <$> SUPPORTED_MODELS.
Proof.
  assert (lit "gemini-3-flash-preview" ∈ model_id <$> SUPPORTED_MODELS)
    as Hdefault by apply list_elem_of_here.
  unfold currentModel.
  destruct (window w); [|done].
  destruct (localStorage_getItem _ w) as [[|c saved]|]; [done| |done].
  destruct (existsb _ _) eqn:Hex; [|done]. by apply supported_some.
Qed.

Lemma currentModel_cases {Remote} (w : World Remote) :
  currentModel w = lit "gemini-3-flash-preview" \/
  currentModel w = lit "gemini-3-pro-preview" \/
  currentModel w = lit "gemini-2.5-flash".
Proof.
  pose proof (currentModel_supported w) as H.
  unfold SUPPORTED_MODELS in H. cbn [fmap list_fmap model_id] in H.
  rewrite !elem_of_cons, elem_of_nil in H. tauto.
Qed.

Lemma uniqueFallbacks_length {Remote} (w : World Remote) :
  length (uniqueFallbacks w) = 3%nat.
Proof.
  unfold uniqueFallbacks.
  destruct (currentModel_cases w) as [-> | [-> | ->]]; by vm_compute.
Qed.

(** X2: whatever is stored, the candidate chain is the three fallback
    models in some order, hence three models long and made of supported
    models only: the starting model first, then the other fallback models
    in their fixed order. *)
Theorem chain_is_fallback_permutation {Remote} (w : World Remote) :
  uniqueFallbacks w ≡ₚ FALLBACK_ORDER /\
  length (uniqueFallbacks w) = 3%nat /\
  uniqueFallbacks w
    = currentModel w :: filter (fun m => m <> currentModel w) FALLBACK_ORDER /\
  (forall model,
      model ∈ uniqueFallbacks w -> model ∈ model_id <$> SUPPORTED_MODELS).
Proof.
  split; [|split; [apply uniqueFallbacks_length|split]].
  - unfold uniqueFallbacks.
    destruct (currentModel_cases w) as [-> | [-> | ->]].
    + by vm_compute.
    + vm_compute. apply perm_swap.
    + vm_compute.
      apply (Permutation_cons_append
               [lit "gemini-3-flash-preview"; lit "gemini-3-pro-preview"]).
  - unfold uniqueFallbacks.
    destruct (currentModel_cases w) as [-> | [-> | ->]]; by vm_compute.
  - intros model Hin. unfold uniqueFallbacks in Hin.
    apply (proj1 (array_from_set_elem _ _)) in Hin.
    apply elem_of_cons in Hin as [-> | Hin]; [apply currentModel_supported|].
    exact Hin.
Qed.

Lemma retry_loop_calls_first {Remote T}
    (typeErrorMessage : jsstring -> jsstring) name
    (op : jsstring -> GoogleGenAI -> Async Remote T) key model rest last w :
  head (retry_loop typeErrorMessage name op key (model :: rest) last w).2
    = Some model.
Proof.
  cbn [retry_loop].
  destruct (op _ _ _) as [[v|[error| |]] w2]; [done| |done..].
  by destruct (retry_loop _ _ _ _ _ _ _) as [[res w4] called].
Qed.

Lemma uniqueFallbacks_head {Remote} (w : World Remote) :
  exists rest, uniqueFallbacks w = currentModel w :: rest.
Proof.
  pose proof (array_from_set_head (currentModel w) FALLBACK_ORDER) as H.
  unfold uniqueFallbacks. destruct (array_from_set _) as [|m rest]; [done|].
  injection H as ->. by exists rest.
Qed.

(** X3: one call of the wrapper calls the operation at most three times,
    and, when there is a key, at least once, the first time with the
    starting model. *)
Theorem attempts_bounded {Remote T}
    (typeErrorMessage : jsstring -> jsstring) (operationName : jsstring)
    (operationFn : jsstring -> GoogleGenAI -> Async Remote T)
    (w : World Remote) :
  (length (attempts typeErrorMessage operationName operationFn w) <= 3)%nat /\
  (getApiKey w <> [] ->
   head (attempts typeErrorMessage operationName operationFn w)
     = Some (currentModel w) /\
   (1 <= length (attempts typeErrorMessage operationName operationFn w))%nat).
Proof.
  split.
  - destruct (attempts_prefix typeErrorMessage operationName operationFn w)
      as [k Hk].
    pose proof (uniqueFallbacks_length w) as Hlen.
    rewrite Hk, length_app in Hlen. lia.
  - intros Hkey. unfold attempts.
    rewrite callAIWithRetry_traced_with_key by done.
    destruct (uniqueFallbacks_head w) as [rest ->].
    pose proof (retry_loop_calls_first typeErrorMessage operationName
                  operationFn (getApiKey w) (currentModel w) rest None w)
      as Hhead.
    split; [done|].
    destruct (retry_loop _ _ _ _ _ _ _).2; [done|]. cbn. lia.
Qed.

Lemma attempts_bounded_witness :
  getApiKey Demo.browser_25 <> [] /\
  head (attempts Demo.engine_message (lit "demo") Demo.hopeless
          Demo.browser_25)
    = Some (lit "gemini-2.5-flash") /\
  (1 <= length (attempts Demo.engine_message (lit "demo") Demo.hopeless
                  Demo.browser_25))%nat.
Proof.
  assert (getApiKey Demo.browser_25 <> []) as Hkey
    by (vm_compute; discriminate).
  split; [exact Hkey|].
  exact (proj2 (attempts_bounded Demo.engine_message (lit "demo")
                  Demo.hopeless Demo.browser_25) Hkey).
Defined.

(** ** The requests a call sends *)

Section Sent.
Context {Remote : Type}.
Variable generateContent :
  GoogleGenAI -> Request -> Remote -> (Response + Error) * Remote.
Variable syntaxErrorMessage typeErrorMessage : jsstring -> jsstring.

Local Abbreviation service := (recording generateContent).
Local Abbreviation W := (World (Remote * list Request)).

Lemma sent_console_write lvl args (w : W) :
  sent (console_write lvl args w).2 = sent w.
Proof. done. Qed.

Lemma sent_generateContent ai req (w : W) :
  sent (models_generateContent service ai req w).2 = sent w ++ [req].
Proof.
  unfold models_generateContent, recording, sent.
  destruct (generateContent ai req (remote w).1) as [[resp|e] rem]; done.
Qed.

Lemma JSON_parse_world text (w : W) :
  (JSON_parse syntaxErrorMessage text w).2 = w.
Proof. unfold JSON_parse. by destruct (Json.parse text). Qed.

Lemma get_property_world result name (w : W) :
  (get_property typeErrorMessage result name w).2 = w.
Proof. by destruct result. Qed.

Section Loop.
Context {T : Type}.
Variable operationName : jsstring.
Variable operationFn : jsstring -> GoogleGenAI -> Async (Remote * list Request) T.
Variable request : jsstring -> Request.
Variable extras : list Request -> Prop.

(** Each call of the operation sends its request first; only a call that
    returns may send more. *)
Hypothesis operation_sends :
  forall model ai (w : W),
    match operationFn model ai w with
    | (Thrown _, w') => sent w' = sent w ++ [request model]
    | (Returned _, w') =>
        exists extra, sent w' = sent w ++ request model :: extra /\ extras extra
    end.

Lemma retry_loop_sent key models last (w : W) :
  match retry_loop typeErrorMessage operationName operationFn key models last w with
  | (Thrown _, w', called) => sent w' = sent w ++ (request <$> called)
  | (Returned _, w', called) =>
      exists extra,
        sent w' = sent w ++ (request <$> called) ++ extra /\ extras extra
  end.
Proof using operation_sends.
  revert last w. induction models as [|model rest IH]; intros last w.
  - cbn. by rewrite app_nil_r.
  - cbn [retry_loop].
    pose proof (operation_sends model (mkClient key)
                  (log_attempt operationName model w)) as Hop.
    destruct (operationFn _ _ _) as [[v|[error| |]] w2];
      [|
       |cbn [fmap list_fmap]; by rewrite Hop..].
    + destruct Hop as (extra & Hsent & Hextra). exists extra. split; [|done].
      by rewrite Hsent.
    + specialize (IH (Some error) (log_failed operationName model error w2)).
      destruct (retry_loop _ _ _ _ _ _ _) as [[[v|e] w4] called].
      * destruct IH as (extra & Hsent & Hextra). exists extra. split; [|done].
        rewrite Hsent. unfold log_failed. rewrite sent_console_write, Hop.
        unfold log_attempt. rewrite sent_console_write.
        cbn [fmap list_fmap]. by rewrite <- !app_assoc.
      * rewrite IH. unfold log_failed. rewrite sent_console_write, Hop.
        unfold log_attempt. rewrite sent_console_write.
        cbn [fmap list_fmap]. by rewrite <- !app_assoc.
Qed.

Lemma callAIWithRetry_sent (w : W) :
  let called := attempts typeErrorMessage operationName operationFn w in
  match callAIWithRetry typeErrorMessage operationName operationFn w with
  | (Thrown _, w') => sent w' = sent w ++ (request <$> called)
  | (Returned _, w') =>
      exists extra,
        sent w' = sent w ++ (request <$> called) ++ extra /\ extras extra
  end.
Proof using operation_sends.
  cbn zeta. unfold callAIWithRetry, attempts, callAIWithRetry_traced.
  destruct (getApiKey w) as [|c k].
  - cbn. by rewrite app_nil_r.
  - pose proof (retry_loop_sent (c :: k) (uniqueFallbacks w) None w) as H.
    by destruct (retry_loop _ _ _ _ _ _ _) as [[[v|e] w4] called].
Qed.

End Loop.

Lemma attempts_length {T} name
    (op : jsstring -> GoogleGenAI -> Async (Remote * list Request) T) (w : W) :
  (length (attempts typeErrorMessage name op w) <= 3)%nat.
Proof.
  destruct (attempts_prefix typeErrorMessage name op w) as [k Hk].
  pose proof (uniqueFallbacks_length w) as Hlen.
  rewrite Hk, length_app in Hlen. lia.
Qed.

Lemma request_models (request : jsstring -> Request) (called : list jsstring) :
  (forall model, req_model (request model) = model) ->
  req_model <$> (request <$> called) = called.
Proof.
  intros Hreq. induction called as [|m called IH]; [done|].
  cbn [fmap list_fmap] in *. by rewrite Hreq, IH.
Qed.

(** A caller whose operation sends its request and then only computes. *)
Lemma single_request_caller {T} name
    (op : jsstring -> GoogleGenAI -> Async (Remote * list Request) T)
    (request : jsstring -> Request) :
  (forall model, req_model (request model) = model) ->
  (forall model ai (w : W), sent (op model ai w).2 = sent w ++ [request model]) ->
  one_request_per_attempt typeErrorMessage
    (callAIWithRetry typeErrorMessage name op) name op request.
Proof.
  intros Hmodel Hop w. cbn zeta.
  split; [|split; [by apply request_models|split;
                   [apply attempts_length|apply attempts_NoDup]]].
  pose proof (callAIWithRetry_sent name op request (fun extra => extra = [])) as H.
  specialize (H (fun model ai w0 => ltac:(
    specialize (Hop model ai w0);
    destruct (op model ai w0) as [[v|e] w']; cbn [snd] in Hop;
    [exists []; by split|done])) w).
  cbn zeta in H.
  destruct (callAIWithRetry typeErrorMessage name op w) as [[v|e] w']; cbn [snd].
  - destruct H as (extra & -> & ->). by rewrite app_nil_r.
  - done.
Qed.

Lemma parsing_operation_sends ai req (w : W) :
  sent (bind (models_generateContent service ai req)
          (fun response => JSON_parse syntaxErrorMessage (jsonText response))
          w).2
  = sent w ++ [req].
Proof.
  unfold bind. pose proof (sent_generateContent ai req w) as H.
  destruct (models_generateContent service ai req w) as [[resp|e] w1];
    cbn [snd] in H; [|done].
  by rewrite JSON_parse_world.
Qed.

Lemma generateSpeech_operation_sends text model ai (w : W) :
  sent (generateSpeech_operation service text model ai w).2
  = sent w ++ [generateSpeech_request text model].
Proof.
  unfold generateSpeech_operation, bind.
  pose proof (sent_generateContent ai (generateSpeech_request text model) w) as H.
  destruct (models_generateContent service ai _ w) as [[resp|e] w1];
    cbn [snd] in H; [|done].
  by destruct (first_inline_data resp) as [[|c d]|].
Qed.

Lemma generateSpeech_sent text :
  one_request_per_attempt typeErrorMessage
    (generateSpeech service typeErrorMessage text)
    (lit "generateSpeech") (generateSpeech_operation service text)
    (generateSpeech_request text).
Proof.
  intros w0. cbn zeta.
  destruct (single_request_caller (lit "generateSpeech")
              (generateSpeech_operation service text)
              (generateSpeech_request text) (fun _ => eq_refl)
              (generateSpeech_operation_sends text) w0)
    as (Hsent & Hrest).
  split; [|exact Hrest]. rewrite generateSpeech_after_wrapper.
  destruct (callAIWithRetry _ _ _ w0) as [[audio|err] w']; cbn [snd] in *;
    [done|]. by rewrite sent_console_write.
Qed.

End Sent.

(** X4: [generateSpeech], [analyzeWriting], [analyzeSpeaking],
    [gradeSpeakingSession] and [analyzePronunciation] send the hosted
    service exactly one request per attempt and nothing else: the requests
    of one call are the caller's request for each model tried, in the
    order tried, so at most three of them, each to a different model. *)
Theorem callers_send_one_request_per_attempt {Remote}
    (generateContent :
       GoogleGenAI -> Request -> Remote -> (Response + Error) * Remote)
    (syntaxErrorMessage typeErrorMessage : jsstring -> jsstring) :
  let service := recording generateContent in
  (forall text,
      one_request_per_attempt typeErrorMessage
        (generateSpeech service typeErrorMessage text)
        (lit "generateSpeech") (generateSpeech_operation service text)
        (generateSpeech_request text)) /\
  (forall text taskType,
      one_request_per_attempt typeErrorMessage
        (analyzeWriting service syntaxErrorMessage typeErrorMessage text
           taskType)
        (lit "analyzeWriting")
        (analyzeWriting_operation service syntaxErrorMessage text taskType)
        (analyzeWriting_request text taskType)) /\
  (forall audioBase64 topic,
      let said :=
        [ mkChatMessage user_role (lit "(Audio Transcript Placeholder)")
            None ] in
      one_request_per_attempt typeErrorMessage
        (analyzeSpeaking service syntaxErrorMessage typeErrorMessage
           audioBase64 topic)
        (lit "gradeSpeakingSession")
        (gradeSpeakingSession_operation service syntaxErrorMessage said
           topic (Some audioBase64))
        (gradeSpeakingSession_request said topic (Some audioBase64))) /\
  (forall fullHistory topic lastAudioBase64,
      one_request_per_attempt typeErrorMessage
        (gradeSpeakingSession service syntaxErrorMessage typeErrorMessage
           fullHistory topic lastAudioBase64)
        (lit "gradeSpeakingSession")
        (gradeSpeakingSession_operation service syntaxErrorMessage
           fullHistory topic lastAudioBase64)
        (gradeSpeakingSession_request fullHistory topic lastAudioBase64)) /\
  (forall audioBase64 targetText,
      one_request_per_attempt typeErrorMessage
        (analyzePronunciation service syntaxErrorMessage typeErrorMessage
           audioBase64 targetText)
        (lit "analyzePronunciation")
        (analyzePronunciation_operation service syntaxErrorMessage
           audioBase64 targetText)
        (analyzePronunciation_request audioBase64 targetText)).
Proof.
  cbn zeta. split; [intros text; apply generateSpeech_sent|].
  split; [|split; [|split]]; intros;
    apply single_request_caller; try done;
    intros model ai w; apply parsing_operation_sends.
Qed.

Section InterviewRequests.
Context {Remote : Type}.
Variable generateContent :
  GoogleGenAI -> Request -> Remote -> (Response + Error) * Remote.
Variable syntaxErrorMessage typeErrorMessage : jsstring -> jsstring.

Local Abbreviation service := (recording generateContent).
Local Abbreviation W := (World (Remote * list Request)).

(** The requests for speech of one interview turn: those of one call of
    [generateSpeech], if any. *)
Local Abbreviation speech_requests :=
  (fun extra : list Request =>
     exists v called,
       extra = generateSpeech_request v <$> called /\
       (length called <= 3)%nat /\ NoDup called).

Lemma examiner_turn_sends result (w : W) :
  match examiner_turn service typeErrorMessage result w with
  | (Thrown _, w') => sent w' = sent w
  | (Returned _, w') =>
      exists extra, sent w' = sent w ++ extra /\ speech_requests extra
  end.
Proof.
  assert (result = JNull \/ result <> JNull) as [->|Hnull]
    by (destruct result; (by left) || (by right)).
  { done. }
  destruct (truthy (member result (lit "response"))) eqn:Htruthy.
  - destruct (member result (lit "response")) as [v|] eqn:Hv; [|done].
    destruct (examiner_turn_after_spoken service typeErrorMessage result v w
                Hnull Hv Htruthy) as (audio & w2 & Hspeech & ->).
    destruct (generateSpeech_sent generateContent typeErrorMessage v w)
      as (Hsent & _ & Hlen & Hnodup).
    rewrite Hspeech in Hsent. cbn [snd] in Hsent.
    eexists. split; [exact Hsent|]. by eexists _, _.
  - rewrite examiner_turn_after_quiet by done.
    exists []. split; [by rewrite app_nil_r|].
    exists JNull, []. repeat split; [cbn; lia|constructor].
Qed.

Lemma interactWithExaminer_operation_sends history topic userAudioBase64
    specificQuestion isFinish model ai (w : W) :
  match interactWithExaminer_operation service syntaxErrorMessage
          typeErrorMessage history topic userAudioBase64 specificQuestion
          isFinish model ai w with
  | (Thrown _, w') =>
      sent w' = sent w ++
        [interactWithExaminer_request history topic userAudioBase64
           specificQuestion isFinish model]
  | (Returned _, w') =>
      exists extra,
        sent w' = sent w ++
          interactWithExaminer_request history topic userAudioBase64
            specificQuestion isFinish model :: extra /\
        speech_requests extra
  end.
Proof.
  unfold interactWithExaminer_operation. unfold bind at 1.
  pose proof (sent_generateContent generateContent ai
                (interactWithExaminer_request history topic userAudioBase64
                   specificQuestion isFinish model) w) as Hfirst.
  destruct (models_generateContent service ai _ w) as [[response|e] w1];
    cbn [snd] in Hfirst; [|done].
  unfold bind.
  pose proof (JSON_parse_world syntaxErrorMessage (jsonText response) w1)
    as Hparse.
  destruct (JSON_parse syntaxErrorMessage (jsonText response) w1)
    as [[result|e] w2]; cbn [snd] in Hparse; subst w2; [|done].
  pose proof (examiner_turn_sends result w1) as Hturn.
  destruct (examiner_turn service typeErrorMessage result w1)
    as [[turn|e] w3].
  - destruct Hturn as (extra & Hsent & Hextra). exists extra.
    split; [|done]. rewrite Hsent, Hfirst. by rewrite <- app_assoc.
  - by rewrite Hturn.
Qed.

End InterviewRequests.

(** X5: one interview turn sends the hosted service at most six
    requests: the interview request once for each model tried, at most
    three times, and after them, only when the turn returns, the requests
    for speech of a single call of [generateSpeech], at most three, each
    asking for audio from a different model. *)
Theorem interview_turn_requests {Remote}
    (generateContent :
       GoogleGenAI -> Request -> Remote -> (Response + Error) * Remote)
    (syntaxErrorMessage typeErrorMessage : jsstring -> jsstring)
    history topic userAudioBase64 specificQuestion isFinish
    (w : World (Remote * list Request)) :
  let service := recording generateContent in
  let run :=
    interactWithExaminer service syntaxErrorMessage typeErrorMessage history
      topic userAudioBase64 specificQuestion isFinish in
  let called :=
    attempts typeErrorMessage (lit "interactWithExaminer")
      (interactWithExaminer_operation service syntaxErrorMessage
         typeErrorMessage history topic userAudioBase64 specificQuestion
         isFinish) w in
  let asked :=
    interactWithExaminer_request history topic userAudioBase64
      specificQuestion isFinish <$> called in
  exists speech,
    sent (run w).2 = sent w ++ asked ++ speech /\
    (length asked <= 3)%nat /\ (length speech <= 3)%nat /\
    (length (asked ++ speech) <= 6)%nat /\
    Forall (fun r => responseModalities (req_config r) = Some [AUDIO]) speech /\
    NoDup (req_model <$> speech) /\
    (forall e, (run w).1 = Thrown e -> speech = []).
Proof.
  cbn zeta.
  pose proof (callAIWithRetry_sent typeErrorMessage
    (lit "interactWithExaminer")
    (interactWithExaminer_operation (recording generateContent)
       syntaxErrorMessage typeErrorMessage history topic userAudioBase64
       specificQuestion isFinish)
    (interactWithExaminer_request history topic userAudioBase64
       specificQuestion isFinish)
    (fun extra : list Request =>
       exists v called,
         extra = generateSpeech_request v <$> called /\
         (length called <= 3)%nat /\ NoDup called)
    (interactWithExaminer_operation_sends generateContent syntaxErrorMessage
       typeErrorMessage history topic userAudioBase64 specificQuestion
       isFinish) w) as H.
  cbn zeta in H. unfold interactWithExaminer.
  pose proof (attempts_length typeErrorMessage (lit "interactWithExaminer")
    (interactWithExaminer_operation (recording generateContent)
       syntaxErrorMessage typeErrorMessage history topic userAudioBase64
       specificQuestion isFinish) w) as Hcalled.
  destruct (callAIWithRetry _ _ _ w) as [[turn|e] w']; cbn [fst snd].
  - destruct H as (extra & Hsent & v & called & -> & Hlen & Hnodup).
    exists (generateSpeech_request v <$> called).
    rewrite !length_app, !length_fmap.
    split; [done|]. split; [done|]. split; [done|]. split; [lia|].
    split; [|split; [|done]].
    + apply Forall_fmap, Forall_forall. by intros model _.
    + by rewrite request_models.
  - exists []. rewrite !length_app, !length_fmap, app_nil_r. cbn [length].
    split; [done|]. split; [done|]. split; [lia|]. split; [lia|].
    split; [constructor|]. split; [constructor|done].
Qed.

(** X6: without a key [generateSpeech] does not raise the missing-key
    error: it returns the empty string, the hosted service is not
    contacted, and all that is left is one error line on the console,
    carrying the missing-key message. *)
Theorem generateSpeech_without_key {Remote}
    (generateContent :
       GoogleGenAI -> Request -> Remote -> (Response + Error) * Remote)
    (typeErrorMessage : jsstring -> jsstring)
    (text : json) (w : World Remote) :
  getApiKey w = [] ->
  let after := generateSpeech generateContent typeErrorMessage text w in
  after.1 = Returned [] /\
  remote after.2 = remote w /\
  console after.2
    = console w ++
      [ (ErrorLevel,
         [ lit "TTS Final Fail:";
           lit "API Key is missing. Please click 'Settings' to add your key." ]) ] /\
  attempts typeErrorMessage (lit "generateSpeech")
    (generateSpeech_operation generateContent text) w = [].
Proof.
  intros Hkey. cbn zeta. rewrite generateSpeech_after_wrapper.
  unfold callAIWithRetry, attempts.
  by rewrite callAIWithRetry_traced_without_key.
Qed.

Lemma generateSpeech_without_key_witness :
  getApiKey Demo.no_key = [] /\
  (generateSpeech Demo.speaking_service Demo.engine_message
     (JString (lit "Hello!")) Demo.no_key).1
    = Returned [] /\
  remote
    (generateSpeech Demo.speaking_service Demo.engine_message
       (JString (lit "Hello!")) Demo.no_key).2 = [].
Proof.
  assert (getApiKey Demo.no_key = []) as Hkey by (vm_compute; reflexivity).
  destruct (generateSpeech_without_key Demo.speaking_service
              Demo.engine_message (JString (lit "Hello!")) Demo.no_key Hkey)
    as (Hret & Hremote & _).
  split; [exact Hkey|]. split; [exact Hret|exact Hremote].
Defined.

(** ** The credential resolver and the settings dialog *)

Lemma blank_or_given (s : option jsstring) :
  blank s \/ exists c k, s = Some (c :: k).
Proof. destruct s as [[|c k]|]; unfold blank; eauto. Qed.

(** X7: the credential resolver takes the stored key when there is a
    non-empty one, else [API_KEY] when that is non-empty, else
    [GEMINI_API_KEY] when that is non-empty; it returns the empty string
    exactly when all three are absent or empty. *)
Theorem getApiKey_precedence {Remote} (w : World Remote) :
  let stored := localStorage_getItem (lit "lingua_api_key") w in
  (forall c k, stored = Some (c :: k) -> getApiKey w = c :: k) /\
  (forall c k,
      blank stored -> env_API_KEY w = Some (c :: k) -> getApiKey w = c :: k) /\
  (forall c k,
      blank stored -> blank (env_API_KEY w) ->
      env_GEMINI_API_KEY w = Some (c :: k) -> getApiKey w = c :: k) /\
  (getApiKey w = [] <->
   blank stored /\ blank (env_API_KEY w) /\ blank (env_GEMINI_API_KEY w)).
Proof.
  cbn zeta. unfold getApiKey, localStorage_getItem, or_else, blank.
  destruct (window w) as [storage|].
  - destruct (storage !! lit "lingua_api_key") as [[|c0 k0]|];
      destruct (env_API_KEY w) as [[|c1 k1]|];
      destruct (env_GEMINI_API_KEY w) as [[|c2 k2]|];
      (split; [|split; [|split]]);
      try (intros; intuition congruence).
  - destruct (env_API_KEY w) as [[|c1 k1]|];
      destruct (env_GEMINI_API_KEY w) as [[|c2 k2]|];
      (split; [|split; [|split]]);
      try (intros; intuition congruence).
Qed.

Lemma getApiKey_precedence_witness :
  let w : World (list Request) :=
    mkWorld (Some (<[lit "lingua_api_key" := []]> ∅)) (Some [])
      (Some (lit "AIza-env")) [] [] in
  blank (localStorage_getItem (lit "lingua_api_key") w) /\
  blank (env_API_KEY w) /\
  getApiKey w = lit "AIza-env".
Proof.
  cbn zeta.
  assert (blank (localStorage_getItem (lit "lingua_api_key")
                   (mkWorld (Some (<[lit "lingua_api_key" := []]> ∅))
                      (Some []) (Some (lit "AIza-env")) []
                      ([] : list Request)))) as Hstored
    by (right; vm_compute; reflexivity).
  assert (blank (Some [])) as Henv by (right; reflexivity).
  split; [exact Hstored|]. split; [exact Henv|].
  refine (proj1 (proj2 (proj2 (getApiKey_precedence _))) 65 _ Hstored Henv _).
  reflexivity.
Defined.

Lemma storage_keys_differ :
  lit "lingua_selected_model" <> lit "lingua_api_key".
Proof. vm_compute. discriminate. Qed.

Lemma handleSave_storage {Remote} (onClose : World Remote -> World Remote)
    props (w w' : World Remote) :
  (forall w0, window (onClose w0) = window w0) ->
  handleSave onClose props w = Some w' ->
  localStorage_getItem (lit "lingua_api_key") w' = Some (props_apiKey props) /\
  localStorage_getItem (lit "lingua_selected_model") w'
    = Some (AIModelType_string (selectedModel props)).
Proof.
  intros Hclose. unfold handleSave, localStorage_setItem.
  destruct (window w) as [storage|]; [|done]. cbn.
  intros [= <-]. unfold localStorage_getItem. rewrite Hclose. cbn [window].
  split.
  - rewrite lookup_insert_ne by apply storage_keys_differ.
    apply lookup_insert_eq.
  - apply lookup_insert_eq.
Qed.

Lemma click_save_enabled {Remote} (onClose : World Remote -> World Remote)
    props (w : World Remote) :
  isOpen props = true -> props_apiKey props <> [] ->
  click_save onClose props w = handleSave onClose props w.
Proof.
  intros Hopen Hkey. unfold click_save. rewrite Hopen.
  by destruct (props_apiKey props).
Qed.

Lemma exhausted_is_not_missing_key last :
  newError (exhausted_message last) <> newError missing_key_message.
Proof. unfold newError. intros H. injection H as H. by vm_compute in H. Qed.

(** X8: a key saved with the Save button is the key the services use
    from then on, whatever the process configuration says, so that no
    call fails for a missing key any more.  The button saves only while
    the dialog is open and the key is not empty; otherwise a click
    changes nothing. *)
Theorem saved_key_is_used {Remote} (onClose : World Remote -> World Remote)
    (props : SettingsProps) (w w' : World Remote) :
  (forall w0, window (onClose w0) = window w0) ->
  (isOpen props = false \/ props_apiKey props = [] ->
   click_save onClose props w = Some w) /\
  (isOpen props = true -> props_apiKey props <> [] ->
   click_save onClose props w = Some w' ->
   getApiKey w' = props_apiKey props /\
   forall (typeErrorMessage : jsstring -> jsstring) T name
          (op : jsstring -> GoogleGenAI -> Async Remote T),
     (callAIWithRetry typeErrorMessage name op w').1
       <> Thrown (newError missing_key_message) /\
     (1 <= length (attempts typeErrorMessage name op w'))%nat).
Proof.
  intros Hclose. split.
  - unfold click_save. intros [-> | ->]; [done|]. by destruct (isOpen props).
  - intros Hopen Hkey Hclick. rewrite click_save_enabled in Hclick by done.
    destruct (handleSave_storage _ _ _ _ Hclose Hclick) as [Hstored _].
    assert (getApiKey w' = props_apiKey props) as Hget.
    { unfold getApiKey. rewrite Hstored.
      unfold localStorage_getItem in Hstored.
      destruct (window w'); [|done]. by destruct (props_apiKey props). }
    split; [done|]. intros typeErrorMessage T name op. split.
    + destruct (callAIWithRetry typeErrorMessage name op w')
        as [[v|e] w''] eqn:Hcall; [done|].
      cbn [fst]. intros [= ->].
      destruct (callAIWithRetry_thrown _ _ _ _ _ _ Hcall)
        as [(Hnone & _)|[(_ & _ & error & _ & Hbad)
           |(_ & pre & m & post & w1 & last1 & x & _ & _ & _ & _ & _ & Hbad)]];
        [congruence| |discriminate].
      apply (exhausted_is_not_missing_key (Some error)). congruence.
    + unfold attempts. rewrite callAIWithRetry_traced_with_key by congruence.
      destruct (uniqueFallbacks_head w') as [rest ->].
      pose proof (retry_loop_calls_first typeErrorMessage name op
                    (getApiKey w') (currentModel w') rest None w') as Hhead.
      destruct (retry_loop _ _ _ _ _ _ _).2; [done|]. cbn. lia.
Qed.

Lemma saved_key_is_used_witness :
  let props := mkSettingsProps true (lit "AIza-new") gemini_3_pro_preview in
  exists w',
    click_save id props Demo.browser = Some w' /\
    getApiKey w' = lit "AIza-new".
Proof.
  cbn zeta.
  destruct (click_save id (mkSettingsProps true (lit "AIza-new")
                             gemini_3_pro_preview) Demo.browser)
    as [w'|] eqn:Hclick; [|vm_compute in Hclick; discriminate].
  exists w'. split; [reflexivity|].
  refine (proj1 (proj2 (saved_key_is_used id
                          (mkSettingsProps true (lit "AIza-new")
                             gemini_3_pro_preview) Demo.browser w'
                          (fun _ => eq_refl)) _ _ Hclick)).
  - reflexivity.
  - discriminate.
Defined.

(** X9: a model saved with the Save button is the starting model from
    then on: it heads the candidate chain, the other two fallback models
    follow in their fixed order, and the first attempt of every call
    that has a key is made with it. *)
Theorem saved_model_is_tried_first {Remote}
    (onClose : World Remote -> World Remote)
    (props : SettingsProps) (w w' : World Remote) :
  (forall w0, window (onClose w0) = window w0) ->
  isOpen props = true -> props_apiKey props <> [] ->
  click_save onClose props w = Some w' ->
  let chosen := AIModelType_string (selectedModel props) in
  currentModel w' = chosen /\
  uniqueFallbacks w'
    = chosen :: filter (fun m => m <> chosen) FALLBACK_ORDER /\
  forall (typeErrorMessage : jsstring -> jsstring) T name
         (op : jsstring -> GoogleGenAI -> Async Remote T),
    head (attempts typeErrorMessage name op w') = Some chosen.
Proof.
  intros Hclose Hopen Hkey Hclick. cbn zeta.
  rewrite click_save_enabled in Hclick by done.
  destruct (handleSave_storage _ _ _ _ Hclose Hclick) as [Hstored Hmodel].
  assert (currentModel w' = AIModelType_string (selectedModel props)) as Hcur.
  { apply currentModel_saved; [done|].
    destruct (selectedModel props); cbn;
      rewrite !elem_of_cons; auto. }
  split; [done|]. split.
  - unfold uniqueFallbacks. rewrite Hcur.
    destruct (selectedModel props); by vm_compute.
  - intros typeErrorMessage T name op.
    assert (getApiKey w' <> []) as Hhas.
    { unfold getApiKey. rewrite Hstored.
      unfold localStorage_getItem in Hstored.
      destruct (window w'); [|done]. by destruct (props_apiKey props). }
    unfold attempts. rewrite callAIWithRetry_traced_with_key by done.
    destruct (uniqueFallbacks_head w') as [rest ->]. rewrite <- Hcur.
    apply retry_loop_calls_first.
Qed.

Lemma saved_model_is_tried_first_witness :
  let props := mkSettingsProps true (lit "AIza-new") gemini_3_pro_preview in
  exists w',
    click_save id props Demo.browser = Some w' /\
    uniqueFallbacks w'
      = [ lit "gemini-3-pro-preview"; lit "gemini-3-flash-preview";
          lit "gemini-2.5-flash" ] /\
    head (attempts Demo.engine_message (lit "demo") Demo.hopeless w')
      = Some (lit "gemini-3-pro-preview").
Proof.
  cbn zeta.
  destruct (click_save id (mkSettingsProps true (lit "AIza-new")
                             gemini_3_pro_preview) Demo.browser)
    as [w'|] eqn:Hclick; [|vm_compute in Hclick; discriminate].
  exists w'. split; [reflexivity|].
  destruct (saved_model_is_tried_first id
              (mkSettingsProps true (lit "AIza-new") gemini_3_pro_preview)
              Demo.browser w'
              (fun _ => eq_refl) eq_refl ltac:(discriminate) Hclick)
    as (_ & Hchain & Hfirst).
  split; [exact Hchain|].
  exact (Hfirst Demo.engine_message _ (lit "demo") Demo.hopeless).
Defined.

(** ** More on the cleaner *)

Lemma deletes_fences_sublist s out : deletes_fences s out -> sublist out s.
Proof.
  induction 1.
  - constructor.
  - by apply (sublist_inserts_l (lit "```json" ++ [newline])) in IHdeletes_fences.
  - by apply sublist_inserts_l.
  - by apply sublist_inserts_l.
  - by apply sublist_skip.
Qed.

Lemma deletes_fences_nothing s out :
  deletes_fences s out -> ~ occurs (lit "```") s -> out = s.
Proof.
  induction 1 as [|rest out _ _|rest out _ _ _|rest out _ _ _
                  |c rest out _ _ IH]; intros Hnone.
  - done.
  - destruct Hnone. by exists [], (lit "json" ++ newline :: rest).
  - destruct Hnone. by exists [], (lit "json" ++ rest).
  - destruct Hnone. by exists [], rest.
  - f_equal. apply IH. intros (a & b & ->). apply Hnone.
    by exists (c :: a), b.
Qed.

Lemma trimStart_fixed s :
  (forall c r, s = c :: r -> is_white_space c = false) -> trimStart s = s.
Proof.
  destruct s as [|c s]; [done|]. intros H. cbn [trimStart].
  by rewrite (H c s eq_refl).
Qed.

Lemma trimEnd_fixed s :
  (forall c r, s = r ++ [c] -> is_white_space c = false) -> trimEnd s = s.
Proof.
  intros H. unfold trimEnd. rewrite trimStart_fixed.
  - apply reverse_involutive.
  - intros c r Hrev. apply (H c (reverse r)).
    rewrite <- (reverse_involutive s), Hrev. by rewrite reverse_cons.
Qed.

Lemma trim_fixed s :
  (forall c r, s = c :: r -> is_white_space c = false) ->
  (forall c r, s = r ++ [c] -> is_white_space c = false) ->
  trim s = s.
Proof.
  intros Hhead Hlast. unfold trim. rewrite trimStart_fixed by done.
  by apply trimEnd_fixed.
Qed.

Lemma trim_sublist s : sublist (trim s) s.
Proof.
  destruct (trim_split s) as (pre & post & Hs & _). rewrite Hs at 2.
  apply sublist_inserts_l, sublist_inserts_r. done.
Qed.

Lemma cleanJsonString_clean str : ~ occurs (lit "```") (cleanJsonString str).
Proof.
  intros Hocc. apply (deletes_fences_clean _ _ (remove_all_deletes str)).
  destruct (trim_split (remove_all fence_regex str)) as (pre & post & -> & _).
  by apply occurs_inside.
Qed.

Lemma cleanJsonString_fixed str :
  ~ occurs (lit "```") str ->
  (forall c r, str = c :: r -> is_white_space c = false) ->
  (forall c r, str = r ++ [c] -> is_white_space c = false) ->
  cleanJsonString str = str.
Proof.
  intros Hnone Hhead Hlast. unfold cleanJsonString.
  rewrite (deletes_fences_nothing _ _ (remove_all_deletes str) Hnone).
  by apply trim_fixed.
Qed.

(** X10: cleaning only ever takes code units away, keeping the rest in
    their order, and cleaning twice is the same as cleaning once. *)
Theorem cleanJsonString_idempotent (str : jsstring) :
  sublist (cleanJsonString str) str /\
  (length (cleanJsonString str) <= length str)%nat /\
  cleanJsonString (cleanJsonString str) = cleanJsonString str.
Proof.
  assert (sublist (cleanJsonString str) str) as Hsub.
  { etrans; [apply trim_sublist|].
    apply deletes_fences_sublist, remove_all_deletes. }
  split; [done|]. split; [by apply sublist_length|].
  apply cleanJsonString_fixed.
  - apply cleanJsonString_clean.
  - apply trim_head.
  - apply trim_last.
Qed.

(** X11: text that holds no triple backtick and neither starts nor ends
    with white space comes out of the cleaner unchanged: a payload that
    is not fenced is handed to the parser as it is. *)
Theorem cleanJsonString_leaves_plain_text (str : jsstring) :
  ~ occurs (lit "```") str ->
  (forall c r, str = c :: r -> is_white_space c = false) ->
  (forall c r, str = r ++ [c] -> is_white_space c = false) ->
  cleanJsonString str = str.
Proof. apply cleanJsonString_fixed. Qed.

Lemma cleanJsonString_leaves_plain_text_witness :
  cleanJsonString (tpl "{~feedback~:~use `code` and ``quotes``~}")
    = tpl "{~feedback~:~use `code` and ``quotes``~}".
Proof.
  apply cleanJsonString_leaves_plain_text.
  - intros Hocc%includes_occurs. vm_compute in Hocc. discriminate.
  - intros c r [= <- _]. vm_compute. reflexivity.
  - intros c r H. apply (f_equal reverse) in H.
    rewrite reverse_snoc in H. vm_compute in H. injection H as <- _.
    vm_compute. reflexivity.
Defined.

(** ** Edge cases of the parsing callers *)

(** X12: an answer whose text is not empty but has nothing left after
    cleaning, being made of fence markers and white space only, is not
    treated like an empty answer: the parser is given the empty text and
    every parsing caller's attempt fails with its syntax error. *)
Theorem blank_text_fails_the_attempt {Remote}
    (generateContent :
       GoogleGenAI -> Request -> Remote -> (Response + Error) * Remote)
    (syntaxErrorMessage typeErrorMessage : jsstring -> jsstring)
    (model : jsstring) (ai : GoogleGenAI) (w w1 : World Remote)
    (response : Response) :
  jsonText response = [] ->
  let send := models_generateContent generateContent ai in
  let failure := mkError SyntaxError (syntaxErrorMessage []) in
  (exists c text, resp_text response = Some (c :: text)) /\
  (forall text taskType,
      send (analyzeWriting_request text taskType model) w
        = (Returned response, w1) ->
      analyzeWriting_operation generateContent syntaxErrorMessage text
        taskType model ai w = (Thrown failure, w1)) /\
  (forall fullHistory topic lastAudioBase64,
      send (gradeSpeakingSession_request fullHistory topic lastAudioBase64
              model) w = (Returned response, w1) ->
      gradeSpeakingSession_operation generateContent syntaxErrorMessage
        fullHistory topic lastAudioBase64 model ai w = (Thrown failure, w1)) /\
  (forall audioBase64 targetText,
      send (analyzePronunciation_request audioBase64 targetText model) w
        = (Returned response, w1) ->
      analyzePronunciation_operation generateContent syntaxErrorMessage
        audioBase64 targetText model ai w = (Thrown failure, w1)) /\
  (forall history topic userAudioBase64 specificQuestion isFinish,
      send (interactWithExaminer_request history topic userAudioBase64
              specificQuestion isFinish model) w = (Returned response, w1) ->
      interactWithExaminer_operation generateContent syntaxErrorMessage
        typeErrorMessage history topic userAudioBase64 specificQuestion
        isFinish model ai w = (Thrown failure, w1)).
Proof.
  intros Hblank. cbn zeta.
  assert (Json.parse (jsonText response) = None) as Hbad
    by (by rewrite Hblank).
  split.
  { unfold jsonText in Hblank.
    destruct (resp_text response) as [[|c text]|]; [done|by eauto|done]. }
  split; [|split; [|split]].
  - intros text taskType Hsent.
    rewrite (analyzeWriting_operation_sent _ _ _ _ _ _ _ _ _ Hsent), Hblank.
    by apply JSON_parse_failure.
  - intros fullHistory topic lastAudioBase64 Hsent.
    rewrite (gradeSpeakingSession_operation_sent _ _ _ _ _ _ _ _ _ _ Hsent),
      Hblank.
    by apply JSON_parse_failure.
  - intros audioBase64 targetText Hsent.
    rewrite (analyzePronunciation_operation_sent _ _ _ _ _ _ _ _ _ Hsent),
      Hblank.
    by apply JSON_parse_failure.
  - intros history topic userAudioBase64 specificQuestion isFinish Hsent.
    rewrite (interactWithExaminer_operation_sent _ _ _ _ _ _ _ _ _ _ _ _ _ Hsent),
      Hblank.
    unfold bind. by rewrite JSON_parse_failure.
Qed.

Lemma blank_text_fails_the_attempt_witness :
  let ai := mkClient (lit "AIza-demo") in
  let model := lit "gemini-3-flash-preview" in
  let fences :=
    mkResponse (Some (lit " ```json" ++ newline :: lit "``` ")) None in
  let service (ai : GoogleGenAI) (req : Request) (seen : list Request) :=
    (inl fences : Response + Error, seen ++ [req]) in
  let asked := analyzeWriting_request (lit "I has a apple") General model in
  let w1 := (models_generateContent service ai asked Demo.browser).2 in
  jsonText fences = [] /\
  analyzeWriting_operation service Demo.engine_message (lit "I has a apple")
    General model ai Demo.browser
  = (Thrown (mkError SyntaxError (Demo.engine_message [])), w1).
Proof.
  intros ai model fences service asked w1.
  assert (jsonText fences = []) as Hblank by (vm_compute; reflexivity).
  split; [exact Hblank|].
  destruct (blank_text_fails_the_attempt service Demo.engine_message
              Demo.engine_message model ai Demo.browser w1 fences Hblank)
    as (_ & Hwriting & _).
  apply Hwriting. vm_compute. reflexivity.
Defined.

(** X13: when the interview answer parses to [null], the attempt fails
    with a type error, as any failed attempt does; when it parses to any
    other value that is not an object (a number, a string, a truth value,
    a list) the attempt succeeds with an empty turn: empty transcription,
    undefined response, no audio, and no request for speech. *)
Theorem interview_answer_not_an_object {Remote}
    (generateContent :
       GoogleGenAI -> Request -> Remote -> (Response + Error) * Remote)
    (syntaxErrorMessage typeErrorMessage : jsstring -> jsstring)
    history topic userAudioBase64 specificQuestion isFinish
    (model : jsstring) (ai : GoogleGenAI) (w w1 : World Remote)
    (response : Response) (result : json) :
  models_generateContent generateContent ai
    (interactWithExaminer_request history topic userAudioBase64
       specificQuestion isFinish model) w = (Returned response, w1) ->
  Json.parse (jsonText response) = Some result ->
  (forall fields, result <> JObject fields) ->
  interactWithExaminer_operation generateContent syntaxErrorMessage
    typeErrorMessage history topic userAudioBase64 specificQuestion isFinish
    model ai w
  = match result with
    | JNull =>
        (Thrown (mkError TypeError (typeErrorMessage (lit "response"))), w1)
    | _ => (Returned (mkExaminerTurn (JString []) None []), w1)
    end.
Proof.
  intros Hsent Hparse Hfields.
  rewrite (interactWithExaminer_operation_sent _ _ _ _ _ _ _ _ _ _ _ _ _ Hsent).
  unfold bind at 1. rewrite (JSON_parse_success _ _ _ _ Hparse).
  destruct result; try done; try by rewrite examiner_turn_after_quiet.
  by destruct (Hfields fields).
Qed.

Lemma interview_answer_not_an_object_witness :
  let ai := mkClient (lit "AIza-demo") in
  let model := lit "gemini-3-flash-preview" in
  let answer := mkResponse (Some (lit "null")) None in
  let service (ai : GoogleGenAI) (req : Request) (seen : list Request) :=
    (inl answer : Response + Error, seen ++ [req]) in
  let asked :=
    interactWithExaminer_request [] (lit "Food") None None false model in
  let w1 := (models_generateContent service ai asked Demo.browser).2 in
  interactWithExaminer_operation service Demo.engine_message
    Demo.engine_message [] (lit "Food") None None false model ai Demo.browser
  = (Thrown (mkError TypeError (Demo.engine_message (lit "response"))), w1).
Proof.
  intros ai model answer service asked w1.
  refine (interview_answer_not_an_object service Demo.engine_message
            Demo.engine_message [] (lit "Food") None None false model ai
            Demo.browser w1 answer JNull _ _ _).
  - vm_compute. reflexivity.
  - vm_compute. reflexivity.
  - discriminate.
Defined.

(** X14: which interview prompt is sent.  With no audio, or empty audio,
    the turn opens the session: the request is the one sent for no audio
    on a turn that is not final, and its only part is the opening prompt,
    the one that hands over the fixed question when there is a non-empty
    one and the one that names the topic otherwise.  With audio, the audio
    part comes first and the prompt after it: the closing prompt on the
    final turn, whatever the fixed question; else the prompt that hands
    over the fixed question when there is a non-empty one, and the
    follow-up prompt otherwise.  An empty fixed question counts as
    none. *)
Theorem interview_request_modes (history : list ChatMessage)
    (topic : jsstring) (model : jsstring) :
  let request := interactWithExaminer_request history topic in
  let contents userAudioBase64 specificQuestion isFinish :=
    req_contents (request userAudioBase64 specificQuestion isFinish model) in
  let transcribe := lit "1. Transcribe the user's audio accurately." in
  let spoken audio prompt :=
    PartsContents
      [ InlineDataPart (lit "audio/webm; codecs=opus") audio;
        TextPart (JString prompt) ] in
  (forall userAudioBase64 specificQuestion isFinish,
      blank userAudioBase64 ->
      request userAudioBase64 specificQuestion isFinish model
        = request None specificQuestion false model /\
      (blank specificQuestion ->
       contents userAudioBase64 specificQuestion isFinish
         = PartsContents [TextPart (JString (start_prompt_topic topic))]) /\
      (forall d q,
          specificQuestion = Some (d :: q) ->
          contents userAudioBase64 specificQuestion isFinish
            = PartsContents
                [TextPart (JString (start_prompt_specific (d :: q)))])) /\
  (forall c audio specificQuestion,
      contents (Some (c :: audio)) specificQuestion true
        = spoken (c :: audio) (finish_prompt transcribe)) /\
  (forall c audio d q,
      contents (Some (c :: audio)) (Some (d :: q)) false
        = spoken (c :: audio) (next_prompt_specific transcribe (d :: q))) /\
  (forall c audio specificQuestion,
      blank specificQuestion ->
      contents (Some (c :: audio)) specificQuestion false
        = spoken (c :: audio) (next_prompt_follow_up transcribe)) /\
  (forall c audio specificQuestion specificQuestion',
      request (Some (c :: audio)) specificQuestion true model
        = request (Some (c :: audio)) specificQuestion' true model) /\
  (forall userAudioBase64 isFinish,
      request userAudioBase64 (Some []) isFinish model
        = request userAudioBase64 None isFinish model).
Proof.
  cbn zeta. unfold interactWithExaminer_request, examiner_parts, blank.
  split; [|split; [|split; [|split; [|split]]]].
  - intros userAudioBase64 specificQuestion isFinish [-> | ->];
      (split; [done|]); cbn [req_contents];
      (split; [by intros [-> | ->]|by intros d q ->]).
  - done.
  - done.
  - by intros c audio specificQuestion [-> | ->].
  - done.
  - by intros [[|c audio]|] [].
Qed.

(** The four cases on an instance, with the opening prompt for a fixed
    question written out. *)
Lemma interview_request_modes_witness :
  let request := interactWithExaminer_request [] (lit "Food") in
  let model := lit "gemini-3-flash-preview" in
  request (Some []) None true model = request None None false model /\
  req_contents (request (Some []) None true model)
    = PartsContents [TextPart (JString (start_prompt_topic (lit "Food")))] /\
  req_contents (request None (Some (lit "Do you cook?")) false model)
    = PartsContents
        [ TextPart
            (JString
               (tpl "Start the interview. Introduce yourself briefly (1 sentence) and ask exactly this question: ~Do you cook?~. Return JSON: { ~transcription~: ~~, ~response~: ~Your intro and question~ }")) ] /\
  req_contents (request (Some (lit "UklGRg==")) (Some []) false model)
    = PartsContents
        [ InlineDataPart (lit "audio/webm; codecs=opus") (lit "UklGRg==");
          TextPart
            (JString
               (next_prompt_follow_up
                  (lit "1. Transcribe the user's audio accurately."))) ].
Proof.
  cbn zeta.
  destruct (interview_request_modes [] (lit "Food")
              (lit "gemini-3-flash-preview"))
    as (Hstart & _ & _ & Hnext & _).
  assert (blank (Some [])) as Hempty by (right; reflexivity).
  assert (blank None) as Hnone by (left; reflexivity).
  destruct (Hstart (Some []) None true Hempty) as (Hsame & Htopic & _).
  destruct (Hstart None (Some (lit "Do you cook?")) false Hnone)
    as (_ & _ & Hfixed).
  split; [exact Hsame|]. split; [exact (Htopic Hnone)|].
  split; [exact (Hfixed 68 (lit "o you cook?") eq_refl)|].
  exact (Hnext 85 (lit "klGRg==") (Some []) Hempty).
Defined.

(** ** The console of a call *)

Section Console.
Context {Remote T : Type}.
Variable typeErrorMessage : jsstring -> jsstring.
Variable operationName : jsstring.
Variable operationFn : jsstring -> GoogleGenAI -> Async Remote T.

Hypothesis operation_is_quiet :
  forall model ai (w : World Remote),
    console (operationFn model ai w).2 = console w.

Local Abbreviation announced :=
  (fun model : jsstring => [attempt_line operationName model]).
Local Abbreviation warned :=
  (fun (model : jsstring) (error : Error) =>
     [failed_line operationName model; message error]).

Lemma last_error_cons (last : option Error) error errors :
  from_option Some last (list.last (error :: errors))
    = from_option Some (Some error) (list.last errors).
Proof.
  destruct errors as [|e l]; [done|]. rewrite last_cons_cons.
  destruct (list.last (e :: l)) eqn:H; [done|]. by apply last_None in H.
Qed.

(** The lines of a run of the loop: [failed] are the models whose
    attempt was caught and recorded, with [errors] what was caught. *)
Lemma retry_loop_console key models last (w : World Remote) :
  let '(res, w', called) :=
    retry_loop typeErrorMessage operationName operationFn key models last w in
  exists lines failed (errors : list Error),
    console w' = console w ++ lines /\
    match res with
    | Returned _ => exists model, called = failed ++ [model]
    | Thrown thrown =>
        (called = failed /\
         thrown
           = newError
               (exhausted_message
                  (from_option Some last (list.last errors)))) \/
        (exists model w1 (x : Exception),
            called = failed ++ [model] /\
            (operationFn model (mkClient key) w1).1 = Thrown x /\
            nullish x /\
            thrown = mkError TypeError (typeErrorMessage (lit "message")))
    end /\
    length errors = length failed /\
    console_lines_at LogLevel lines = announced <$> called /\
    console_lines_at WarnLevel lines = zip_with warned failed errors /\
    console_lines_at ErrorLevel lines = [].
Proof using operation_is_quiet.
  revert last w. induction models as [|model rest IH]; intros last w.
  - exists [], [], []. rewrite app_nil_r. repeat split. by left.
  - cbn [retry_loop].
    pose proof (operation_is_quiet model (mkClient key)
                  (log_attempt operationName model w)) as Hquiet.
    destruct (operationFn _ _ _) as [[v|[error| |]] w2] eqn:Hop;
      cbn [snd] in Hquiet.
    + exists [(LogLevel, [attempt_line operationName model])], [], [].
      split; [by rewrite Hquiet|]. split; [by exists model|]. by vm_compute.
    + specialize (IH (Some error) (log_failed operationName model error w2)).
      destruct (retry_loop _ _ _ _ _ _ _) as [[res w4] called].
      destruct IH
        as (lines & failed & errors & Hconsole & Hres & Hlen & Hlog & Hwarn
            & Herror).
      exists ((LogLevel, [attempt_line operationName model])
              :: (WarnLevel,
                  [failed_line operationName model; message error])
              :: lines), (model :: failed), (error :: errors).
      split.
      { rewrite Hconsole. cbn [log_failed console_write snd console].
        rewrite Hquiet. cbn [log_attempt console_write snd console].
        by rewrite <- !app_assoc. }
      split.
      { destruct res as [v|thrown].
        - destruct Hres as [m ->]. by exists m.
        - destruct Hres as [[-> ->]|(m & w1 & x & -> & Hm & Hx & ->)].
          + left. by rewrite last_error_cons.
          + right. by exists m, w1, x. }
      split; [by rewrite !length_cons, Hlen|].
      unfold console_lines_at in *.
      rewrite !filter_cons. cbn [fst level_eqb].
      repeat case_decide; try done.
      cbn [fmap list_fmap snd zip_with]. by rewrite Hlog, Hwarn.
    + exists [(LogLevel, [attempt_line operationName model])], [], [].
      split; [by rewrite Hquiet|]. split; [|by vm_compute].
      right. exists model, (log_attempt operationName model w), UndefinedValue.
      rewrite Hop. repeat split. by left.
    + exists [(LogLevel, [attempt_line operationName model])], [], [].
      split; [by rewrite Hquiet|]. split; [|by vm_compute].
      right. exists model, (log_attempt operationName model w), NullValue.
      rewrite Hop. repeat split. by right.
Qed.

End Console.



(** ** The login screen *)

Lemma students_ascii : Forall ascii_only STUDENTS.
Proof.
  unfold ascii_only. apply (bool_decide_unpack _). by vm_compute.
Qed.

Lemma includes_empty s : includes [] s = true.
Proof. by destruct s. Qed.

Lemma filter_all {A} (P : A -> Prop) `{!forall x, Decision (P x)} (l : list A) :
  Forall P l -> filter P l = l.
Proof.
  induction 1 as [|x l Hx _ IH]; [done|].
  rewrite filter_cons, decide_True by done. by rewrite IH.
Qed.

Lemma filter_agree {A} (P Q : A -> Prop)
    `{!forall x, Decision (P x)} `{!forall x, Decision (Q x)} (l : list A) :
  Forall (fun x => P x <-> Q x) l -> filter P l = filter Q l.
Proof.
  induction 1 as [|x l Hx _ IH]; [done|].
  rewrite !filter_cons, IH.
  destruct (decide (P x)), (decide (Q x)); tauto.
Qed.

Lemma toLowerCase_of_upper s :
  toLowerCase_ascii (toUpperCase_ascii s) = toLowerCase_ascii s.
Proof.
  unfold toLowerCase_ascii, toUpperCase_ascii. rewrite <- list_fmap_compose.
  apply list_fmap_ext. intros _ c _. cbn.
  destruct ((97 <=? c) && (c <=? 122)) eqn:Hlow;
    destruct ((65 <=? c) && (c <=? 90)) eqn:Hup;
    repeat match goal with
    | H : _ && _ = true |- _ =>
        apply andb_true_iff in H as [?%N.leb_le ?%N.leb_le]
    | H : _ && _ = false |- _ =>
        apply andb_false_iff in H as [?%N.leb_gt | ?%N.leb_gt]
    end;
    repeat match goal with
    | |- context [if ?b then _ else _] =>
        let Hb := fresh in
        destruct b eqn:Hb;
        [apply andb_true_iff in Hb as [?%N.leb_le ?%N.leb_le]
        |apply andb_false_iff in Hb as [?%N.leb_gt | ?%N.leb_gt]]
    end; lia.
Qed.

Lemma toLowerCase_idempotent s :
  toLowerCase_ascii (toLowerCase_ascii s) = toLowerCase_ascii s.
Proof.
  unfold toLowerCase_ascii. rewrite <- list_fmap_compose.
  apply list_fmap_ext. intros _ c _. cbn.
  destruct ((65 <=? c) && (c <=? 90)) eqn:Hup; [|by rewrite Hup].
  apply andb_true_iff in Hup as [?%N.leb_le ?%N.leb_le].
  destruct ((65 <=? c + 32) && (c + 32 <=? 90)) eqn:Hup'; [|done].
  apply andb_true_iff in Hup' as [?%N.leb_le ?%N.leb_le]. lia.
Qed.

Lemma toUpperCase_ascii_only s : ascii_only s -> ascii_only (toUpperCase_ascii s).
Proof.
  unfold ascii_only, toUpperCase_ascii. intros H. apply Forall_fmap.
  eapply Forall_impl; [exact H|]. intros c Hc. unfold compose. cbn beta in *.
  destruct ((97 <=? c) && (c <=? 122)); lia.
Qed.

Lemma toLowerCase_ascii_only s : ascii_only s -> ascii_only (toLowerCase_ascii s).
Proof.
  unfold ascii_only, toLowerCase_ascii. intros H. apply Forall_fmap.
  eapply Forall_impl; [exact H|]. intros c Hc. unfold compose. cbn beta in *.
  destruct ((65 <=? c) && (c <=? 90)) eqn:Hup; [|done].
  apply andb_true_iff in Hup as [?%N.leb_le ?%N.leb_le]. lia.
Qed.

Section LoginProperties.
Variable toLowerCase : jsstring -> jsstring.

(** On ASCII text the engine's mapping is the ASCII one. *)
Hypothesis toLowerCase_on_ascii :
  forall s, ascii_only s -> toLowerCase s = toLowerCase_ascii s.

Lemma filteredStudents_ascii term :
  ascii_only term ->
  filteredStudents toLowerCase term
  = filter
      (fun student =>
         includes (toLowerCase_ascii term) (toLowerCase_ascii student) = true)
      STUDENTS.
Proof using toLowerCase_on_ascii.
  intros Hterm. unfold filteredStudents.
  rewrite (toLowerCase_on_ascii term Hterm).
  apply filter_agree. eapply Forall_impl; [apply students_ascii|].
  intros student Hstudent. cbn beta.
  by rewrite (toLowerCase_on_ascii student).
Qed.

End LoginProperties.

(** X16: with nothing typed in the search box the login screen lists all
    fifty-two students, in the order of the class list, and the button
    at each place logs in the student at that place of the list. *)
Theorem empty_search_lists_everyone (toLowerCase : jsstring -> jsstring) :
  (forall s, ascii_only s -> toLowerCase s = toLowerCase_ascii s) ->
  filteredStudents toLowerCase [] = STUDENTS /\
  length (filteredStudents toLowerCase []) = 52%nat /\
  (forall idx, click_student toLowerCase [] idx = STUDENTS !! idx).
Proof.
  intros Hascii.
  assert (filteredStudents toLowerCase [] = STUDENTS) as Hall.
  { unfold filteredStudents.
    rewrite (Hascii [] (Forall_nil_2 _)). cbn [toLowerCase_ascii fmap list_fmap].
    apply filter_all, Forall_forall. intros student _. apply includes_empty. }
  split; [done|]. split; [by rewrite Hall|].
  intros idx. unfold click_student. by rewrite Hall.
Qed.

Lemma empty_search_lists_everyone_witness :
  filteredStudents toLowerCase_ascii [] = STUDENTS /\
  click_student toLowerCase_ascii [] 0 = Some (lit "Hoa Quang An").
Proof.
  destruct (empty_search_lists_everyone toLowerCase_ascii (fun s _ => eq_refl))
    as (Hall & _ & Hclick).
  split; [exact Hall|]. rewrite Hclick. reflexivity.
Defined.

(** X17: for a search term of ASCII characters, the students listed are
    exactly those of the class list whose name contains the term when
    letter case is ignored, and the list does not depend on the letter
    case of the term. *)
Theorem search_ignores_case (toLowerCase : jsstring -> jsstring)
    (term : jsstring) :
  (forall s, ascii_only s -> toLowerCase s = toLowerCase_ascii s) ->
  ascii_only term ->
  (forall student,
      student ∈ filteredStudents toLowerCase term <->
      student ∈ STUDENTS /\
      occurs (toLowerCase_ascii term) (toLowerCase_ascii student)) /\
  filteredStudents toLowerCase (toUpperCase_ascii term)
    = filteredStudents toLowerCase term /\
  filteredStudents toLowerCase (toLowerCase_ascii term)
    = filteredStudents toLowerCase term.
Proof.
  intros Hascii Hterm.
  rewrite !(filteredStudents_ascii toLowerCase Hascii)
    by (done || by apply toUpperCase_ascii_only
        || by apply toLowerCase_ascii_only).
  split; [|split].
  - intros student. rewrite list_elem_of_filter, includes_occurs. tauto.
  - by rewrite toLowerCase_of_upper.
  - by rewrite toLowerCase_idempotent.
Qed.

Lemma search_ignores_case_witness :
  ascii_only (lit "thu") /\
  filteredStudents toLowerCase_ascii (lit "THU")
    = filteredStudents toLowerCase_ascii (lit "thu") /\
  lit "Vo Bao Thuy" ∈ filteredStudents toLowerCase_ascii (lit "thu").
Proof.
  assert (ascii_only (lit "thu")) as Hterm.
  { unfold ascii_only. apply (bool_decide_unpack _). vm_compute. reflexivity. }
  destruct (search_ignores_case toLowerCase_ascii (lit "thu")
              (fun s _ => eq_refl) Hterm) as (Hiff & Hupper & _).
  split; [exact Hterm|]. split; [exact Hupper|].
  apply Hiff. split.
  - apply list_elem_of_In. vm_compute. tauto.
  - apply includes_occurs. vm_compute. reflexivity.
Defined.

(** X18: whatever is typed, a click on the list can only log in a
    student of the class list, one whose name, in lower case, contains
    the term in lower case; there is no button past the end of the
    list. *)
Theorem login_only_as_listed_student (toLowerCase : jsstring -> jsstring)
    (searchTerm : jsstring) (idx : nat) (name : jsstring) :
  click_student toLowerCase searchTerm idx = Some name ->
  name ∈ STUDENTS /\
  includes (toLowerCase searchTerm) (toLowerCase name) = true /\
  (idx < 52)%nat.
Proof.
  unfold click_student. intros Hclick.
  assert (name ∈ filteredStudents toLowerCase searchTerm) as Hin
    by (apply list_elem_of_lookup; eauto).
  apply list_elem_of_filter in Hin as [Hmatch Hlisted].
  split; [done|]. split; [done|].
  apply lookup_lt_Some in Hclick.
  pose proof (length_filter
                (fun student =>
                   includes (toLowerCase searchTerm) (toLowerCase student)
                   = true) STUDENTS) as Hlen.
  unfold filteredStudents in Hclick.
  change (length STUDENTS) with 52%nat in Hlen. lia.
Qed.

Lemma login_only_as_listed_student_witness :
  click_student toLowerCase_ascii (lit "vy") 0 = Some (lit "Vu Thi Ha Vy") /\
  lit "Vu Thi Ha Vy" ∈ STUDENTS.
Proof.
  assert (click_student toLowerCase_ascii (lit "vy") 0
          = Some (lit "Vu Thi Ha Vy")) as Hclick by (vm_compute; reflexivity).
  split; [exact Hclick|].
  exact (proj1 (login_only_as_listed_student toLowerCase_ascii (lit "vy") 0
                  (lit "Vu Thi Ha Vy") Hclick)).
Defined.

(** ** The first answer *)

Section FirstAnswer.
Context {Remote : Type}.
Variable generateContent :
  GoogleGenAI -> Request -> Remote -> (Response + Error) * Remote.
Variable syntaxErrorMessage typeErrorMessage : jsstring -> jsstring.

Lemma parsing_caller_first_answer name
    (op : jsstring -> GoogleGenAI -> Async Remote json)
    (request : jsstring -> Request) :
  (forall model ai (w w1 : World Remote) response,
      models_generateContent generateContent ai (request model) w
        = (Returned response, w1) ->
      op model ai w = JSON_parse syntaxErrorMessage (jsonText response) w1) ->
  forall (w w1 : World Remote) response v,
    getApiKey w <> [] ->
    models_generateContent generateContent (mkClient (getApiKey w))
      (request (currentModel w)) (log_attempt name (currentModel w) w)
      = (Returned response, w1) ->
    Json.parse (jsonText response) = Some v ->
    callAIWithRetry typeErrorMessage name op w = (Returned v, w1) /\
    attempts typeErrorMessage name op w = [currentModel w].
Proof.
  intros Hop w w1 response v Hkey Hsent Hparse.
  unfold callAIWithRetry, attempts.
  rewrite callAIWithRetry_traced_with_key by done.
  destruct (uniqueFallbacks_head w) as [rest ->].
  rewrite (retry_loop_success typeErrorMessage name op (getApiKey w)
             (currentModel w) rest None w v w1); [done|].
  rewrite (Hop _ _ _ _ _ Hsent). by apply JSON_parse_success.
Qed.

End FirstAnswer.

(** X19: when there is a key and the answer of the starting model
    parses, [analyzeWriting], [gradeSpeakingSession] and
    [analyzePronunciation] return the parsed value as it is, whatever its
    shape, after that single attempt: no field of it is looked at and no
    other model is asked. *)
Theorem first_parsed_answer_is_returned {Remote}
    (generateContent :
       GoogleGenAI -> Request -> Remote -> (Response + Error) * Remote)
    (syntaxErrorMessage typeErrorMessage : jsstring -> jsstring)
    (w w1 : World Remote) (response : Response) (v : json) :
  getApiKey w <> [] ->
  Json.parse (jsonText response) = Some v ->
  let send name request :=
    models_generateContent generateContent (mkClient (getApiKey w))
      (request (currentModel w)) (log_attempt name (currentModel w) w) in
  (forall text taskType,
      send (lit "analyzeWriting") (analyzeWriting_request text taskType)
        = (Returned response, w1) ->
      analyzeWriting generateContent syntaxErrorMessage typeErrorMessage text
        taskType w = (Returned v, w1) /\
      attempts typeErrorMessage (lit "analyzeWriting")
        (analyzeWriting_operation generateContent syntaxErrorMessage text
           taskType) w = [currentModel w]) /\
  (forall fullHistory topic lastAudioBase64,
      send (lit "gradeSpeakingSession")
        (gradeSpeakingSession_request fullHistory topic lastAudioBase64)
        = (Returned response, w1) ->
      gradeSpeakingSession generateContent syntaxErrorMessage
        typeErrorMessage fullHistory topic lastAudioBase64 w
        = (Returned v, w1) /\
      attempts typeErrorMessage (lit "gradeSpeakingSession")
        (gradeSpeakingSession_operation generateContent syntaxErrorMessage
           fullHistory topic lastAudioBase64) w = [currentModel w]) /\
  (forall audioBase64 targetText,
      send (lit "analyzePronunciation")
        (analyzePronunciation_request audioBase64 targetText)
        = (Returned response, w1) ->
      analyzePronunciation generateContent syntaxErrorMessage
        typeErrorMessage audioBase64 targetText w = (Returned v, w1) /\
      attempts typeErrorMessage (lit "analyzePronunciation")
        (analyzePronunciation_operation generateContent syntaxErrorMessage
           audioBase64 targetText) w = [currentModel w]).
Proof.
  intros Hkey Hparse. cbn zeta. split; [|split].
  - intros text taskType Hsent.
    apply (parsing_caller_first_answer generateContent syntaxErrorMessage
             typeErrorMessage (lit "analyzeWriting") _ (analyzeWriting_request text taskType))
      with (response := response); try done.
    intros. by apply analyzeWriting_operation_sent.
  - intros fullHistory topic lastAudioBase64 Hsent.
    apply (parsing_caller_first_answer generateContent syntaxErrorMessage
             typeErrorMessage (lit "gradeSpeakingSession") _
             (gradeSpeakingSession_request fullHistory topic lastAudioBase64))
      with (response := response); try done.
    intros. by apply gradeSpeakingSession_operation_sent.
  - intros audioBase64 targetText Hsent.
    apply (parsing_caller_first_answer generateContent syntaxErrorMessage
             typeErrorMessage (lit "analyzePronunciation") _
             (analyzePronunciation_request audioBase64 targetText))
      with (response := response); try done.
    intros. by apply analyzePronunciation_operation_sent.
Qed.

Lemma first_parsed_answer_is_returned_witness :
  let asked :=
    analyzeWriting_request (lit "I has a apple") General
      (lit "gemini-2.5-flash") in
  let w0 :=
    log_attempt (lit "analyzeWriting") (lit "gemini-2.5-flash")
      Demo.browser_25 in
  let w1 :=
    (models_generateContent Demo.service (mkClient (lit "AIza-demo")) asked
       w0).2 in
  analyzeWriting Demo.service Demo.engine_message Demo.engine_message
    (lit "I has a apple") General Demo.browser_25
    = (Returned Demo.score7, w1) /\
  attempts Demo.engine_message (lit "analyzeWriting")
    (analyzeWriting_operation Demo.service Demo.engine_message
       (lit "I has a apple") General) Demo.browser_25
  = [lit "gemini-2.5-flash"].
Proof.
  intros asked w0 w1.
  destruct (first_parsed_answer_is_returned Demo.service Demo.engine_message
              Demo.engine_message Demo.browser_25 w1 (mkResponse (Some Demo.fenced_score) None)
              Demo.score7)
    as (Hwriting & _).
  - vm_compute. discriminate.
  - vm_compute. reflexivity.
  - destruct (Hwriting (lit "I has a apple") General) as [Hcall Hcalled].
    + vm_compute. reflexivity.
    + split; [exact Hcall|]. rewrite Hcalled. vm_compute. reflexivity.
Defined.

(** X20: what an attempt of [generateSpeech] returns is the data of the
    first part of the first candidate of the answer, and only when that
    data is not empty: an answer whose first candidate's first part
    carries non-empty data makes the attempt return exactly that data,
    whatever else the answer holds, and an attempt that returns a value
    was answered in that shape, with that value as the data.  An answer
    with no candidates, an empty list of candidates, a candidate without
    content, content without parts or with none, a part without inline
    data, or inline data that is absent or empty all make the attempt
    fail with the error "No audio generated". *)
Theorem speech_attempt_needs_audio {Remote}
    (generateContent :
       GoogleGenAI -> Request -> Remote -> (Response + Error) * Remote)
    (text : json) (model : jsstring) (ai : GoogleGenAI)
    (w w1 : World Remote) (response : Response) :
  models_generateContent generateContent ai
    (generateSpeech_request text model) w = (Returned response, w1) ->
  let attempt := generateSpeech_operation generateContent text model ai w in
  let carrying data parts more :=
    Some (mkCandidate
            (Some (mkContent
               (Some (mkResponsePart (Some (mkBlob data)) :: parts))))
          :: more) in
  (blank (first_inline_data response) ->
   attempt = (Thrown (newError (lit "No audio generated")), w1)) /\
  (forall c data,
      first_inline_data response = Some (c :: data) ->
      attempt = (Returned (c :: data), w1)) /\
  (forall c data parts more,
      resp_candidates response = carrying (Some (c :: data)) parts more ->
      first_inline_data response = Some (c :: data) /\
      attempt = (Returned (c :: data), w1)) /\
  (forall audio w',
      attempt = (Returned audio, w') ->
      audio <> [] /\ w' = w1 /\
      exists parts more,
        resp_candidates response = carrying (Some audio) parts more) /\
  (resp_candidates response = None \/
   resp_candidates response = Some [] \/
   (exists more, resp_candidates response
                 = Some (mkCandidate None :: more)) \/
   (exists more, resp_candidates response
                 = Some (mkCandidate (Some (mkContent None)) :: more)) \/
   (exists more, resp_candidates response
                 = Some (mkCandidate (Some (mkContent (Some []))) :: more)) \/
   (exists parts more,
       resp_candidates response
       = Some (mkCandidate
                 (Some (mkContent (Some (mkResponsePart None :: parts))))
               :: more)) \/
   (exists data parts more,
       blank data /\
       resp_candidates response = carrying data parts more) ->
   blank (first_inline_data response)).
Proof.
  intros Hsent. cbn zeta. unfold generateSpeech_operation, bind.
  rewrite Hsent.
  split; [|split; [|split; [|split]]].
  - by intros [-> | ->].
  - by intros c data ->.
  - intros c data parts more Hshape.
    assert (first_inline_data response = Some (c :: data)) as Hdata
      by (unfold first_inline_data; by rewrite Hshape).
    by rewrite Hdata.
  - intros audio w'.
    destruct (first_inline_data response) as [[|c d]|] eqn:Hdata; try done.
    intros [= <- <-]. split; [done|]. split; [done|].
    unfold first_inline_data in Hdata.
    destruct (resp_candidates response) as [[|[content] more]|]; try done.
    destruct content as [[parts]|]; try done.
    destruct parts as [[|[inline] parts]|]; try done.
    destruct inline as [[data]|]; try done.
    cbn in Hdata. subst data. by exists parts, more.
  - unfold first_inline_data, blank.
    intros [-> | [-> | [[more ->] | [[more ->] | [[more ->]
           | [(parts & more & ->) | (data & parts & more & Hdata & ->)]]]]]];
      cbn; auto.
Qed.

(** Against the service without a voice the attempt fails; against the
    service with a voice it returns the payload of the answer. *)
Lemma speech_attempt_needs_audio_witness :
  let ai := mkClient (lit "AIza-demo") in
  let model := lit "gemini-3-flash-preview" in
  let hello := JString (lit "Hello!") in
  let asked := generateSpeech_request hello model in
  let w1 := (models_generateContent Demo.service ai asked Demo.browser).2 in
  let w2 :=
    (models_generateContent Demo.speaking_service ai asked Demo.browser).2 in
  generateSpeech_operation Demo.service hello model ai Demo.browser
    = (Thrown (newError (lit "No audio generated")), w1) /\
  generateSpeech_operation Demo.speaking_service hello model ai Demo.browser
    = (Returned (lit "UklGRg=="), w2).
Proof.
  intros ai model hello asked w1 w2. split.
  - destruct (speech_attempt_needs_audio Demo.service hello model ai
                Demo.browser w1 (mkResponse (Some (lit "not json")) None))
      as (Hfail & _).
    + vm_compute. reflexivity.
    + apply Hfail. left. reflexivity.
  - destruct (speech_attempt_needs_audio Demo.speaking_service hello model ai
                Demo.browser w2
                (mkResponse None
                   (Some [ mkCandidate
                             (Some (mkContent
                                (Some [ mkResponsePart
                                          (Some (mkBlob
                                             (Some (lit "UklGRg=="))))
                                      ]))) ])))
      as (_ & _ & Hshape & _).
    + vm_compute. reflexivity.
    + exact (proj2 (Hshape 85 (lit "klGRg==") [] [] eq_refl)).
Defined.

(** ** The chain and the interview requests, on an instance *)

Lemma chain_is_fallback_permutation_witness :
  lit "gemini-2.5-flash" ∈ uniqueFallbacks Demo.browser /\
  lit "gemini-2.5-flash" ∈ model_id <$> SUPPORTED_MODELS.
Proof.
  assert (lit "gemini-2.5-flash" ∈ uniqueFallbacks Demo.browser) as Hin.
  { apply list_elem_of_In. vm_compute. tauto. }
  split; [exact Hin|].
  exact (proj2 (proj2 (proj2 (chain_is_fallback_permutation Demo.browser)))
           _ Hin).
Defined.

Lemma interview_turn_requests_witness :
  let down (ai : GoogleGenAI) (req : Request) (state : unit) :=
    (inr (mkError ApiError (lit "service is down")) : Response + Error,
     state) in
  let w : World (unit * list Request) :=
    mkWorld (Some (<[lit "lingua_api_key" := lit "AIza-demo"]> ∅))
      None None [] (tt, []) in
  let run :=
    interactWithExaminer (recording down) Demo.engine_message
      Demo.engine_message [] (lit "Food") None None false in
  exists e,
    (run w).1 = Thrown e /\
    exists speech,
      speech = [] /\
      sent (run w).2
      = sent w ++
        (interactWithExaminer_request [] (lit "Food") None None false
           <$> attempts Demo.engine_message (lit "interactWithExaminer")
                 (interactWithExaminer_operation (recording down)
                    Demo.engine_message Demo.engine_message [] (lit "Food")
                    None None false) w)
        ++ speech.
Proof.
  intros down w run.
  destruct (run w).1 as [turn|e] eqn:Hrun; [vm_compute in Hrun; discriminate|].
  exists e. split; [reflexivity|].
  destruct (interview_turn_requests down Demo.engine_message
              Demo.engine_message [] (lit "Food") None None false w)
    as (speech & Hsent & _ & _ & _ & _ & _ & Hthrown).
  exists speech. split; [exact (Hthrown e Hrun)|exact Hsent].
Defined.
